(** * AIND constraint-satisfaction notebook: the constraint sets it builds

    The notebook [Week2/constraint_satisfaction/AIND-Constraint_Satisfaction.ipynb]
    declares integer variables, registers constraints on four solver
    instances (cryptarithmetic, map coloring, N-queens, Sudoku) and asserts
    on the result of the solver's [check()].

    The development below embeds
      - the fragment of the solver's expression language the notebook uses,
        with its standard arithmetic meaning;
      - the notebook's cells, as functions that extend a solver's assertion
        list;
      - Python's [assert] on the value returned by [check()].
    The decision procedure itself is external to the repository: it is a
    parameter of the cells that call it. *)

From Stdlib Require Import ZArith QArith Qabs List String Ascii Bool Lia.
From Stdlib Require Import DecimalString DecimalNat DecimalPos DecimalZ.
Import ListNotations.

Local Open Scope string_scope.
Local Open Scope list_scope.
Local Open Scope Z_scope.

(** ** The solver interface used by the notebook *)

Module Z3.

(** Arithmetic and boolean expressions, one constructor per operator the
    notebook applies.  A Python [int] operand becomes [IntVal]; [RealVal] is
    a real numeral, which no cell of the notebook hands to a solver: a
    Python [float] operand of an integer term is cast to an integer numeral
    (see [Python.mul_float]). *)
Inductive ArithRef : Type :=
| Int (name : string)
| IntVal (n : Z)
| RealVal (q : Q)
| Add (a b : ArithRef)
| Sub (a b : ArithRef)
| Mul (a b : ArithRef)
| Neg (a : ArithRef)
| If (c : BoolRef) (a b : ArithRef)
with BoolRef : Type :=
| Le (a b : ArithRef)
| Ge (a b : ArithRef)
| Eq (a b : ArithRef)
| Ne (a b : ArithRef)
| Distinct (args : list ArithRef).

(** A model gives every integer constant a value. *)
Definition model : Type := string -> Z.

(** The model that binds the listed constants, and gives 0 to the others. *)
Definition model_of (kv : list (string * Z)) : model :=
  fun x =>
    match find (fun p => String.eqb (fst p) x) kv with
    | Some p => snd p
    | None => 0
    end.

(** [m] with the constant [x] set to [v]. *)
Definition update (m : model) (x : string) (v : Z) : model :=
  fun y => if String.eqb x y then v else m y.

Fixpoint distinctb (l : list Q) : bool :=
  match l with
  | [] => true
  | x :: r => forallb (fun y => negb (Qeq_bool x y)) r && distinctb r
  end.

(** Integer constants are read in the rationals, so that a constraint mixing
    them with real numerals has a meaning. *)
Fixpoint eval (m : model) (e : ArithRef) : Q :=
  match e with
  | Int x => inject_Z (m x)
  | IntVal n => inject_Z n
  | RealVal q => q
  | Add a b => (eval m a + eval m b)%Q
  | Sub a b => (eval m a - eval m b)%Q
  | Mul a b => (eval m a * eval m b)%Q
  | Neg a => (- eval m a)%Q
  | If c a b => if holds m c then eval m a else eval m b
  end
with holds (m : model) (c : BoolRef) : bool :=
  match c with
  | Le a b => Qle_bool (eval m a) (eval m b)
  | Ge a b => Qle_bool (eval m b) (eval m a)
  | Eq a b => Qeq_bool (eval m a) (eval m b)
  | Ne a b => negb (Qeq_bool (eval m a) (eval m b))
  | Distinct args => distinctb (map (eval m) args)
  end.

(** The integer constants an expression mentions. *)
Fixpoint consts (e : ArithRef) : list string :=
  match e with
  | Int x => [x]
  | IntVal _ | RealVal _ => []
  | Add a b | Sub a b | Mul a b => consts a ++ consts b
  | Neg a => consts a
  | If c a b => consts_of c ++ consts a ++ consts b
  end
with consts_of (c : BoolRef) : list string :=
  match c with
  | Le a b | Ge a b | Eq a b | Ne a b => consts a ++ consts b
  | Distinct args => flat_map consts args
  end.

(** The real numerals and the integer numerals an expression mentions. *)
Fixpoint reals (e : ArithRef) : list Q :=
  match e with
  | Int _ | IntVal _ => []
  | RealVal q => [q]
  | Add a b | Sub a b | Mul a b => reals a ++ reals b
  | Neg a => reals a
  | If c a b => reals_of c ++ reals a ++ reals b
  end
with reals_of (c : BoolRef) : list Q :=
  match c with
  | Le a b | Ge a b | Eq a b | Ne a b => reals a ++ reals b
  | Distinct args => flat_map reals args
  end.

Fixpoint ints (e : ArithRef) : list Z :=
  match e with
  | Int _ | RealVal _ => []
  | IntVal n => [n]
  | Add a b | Sub a b | Mul a b => ints a ++ ints b
  | Neg a => ints a
  | If c a b => ints_of c ++ ints a ++ ints b
  end
with ints_of (c : BoolRef) : list Z :=
  match c with
  | Le a b | Ge a b | Eq a b | Ne a b => ints a ++ ints b
  | Distinct args => flat_map ints args
  end.

(** A solver instance is the list of its assertions, oldest first. *)
Definition Solver : Type := list BoolRef.

(** [Solver()] *)
Definition new_solver : Solver := [].

(** [s.add(c1, ..., cn)] *)
Definition add (s : Solver) (cs : list BoolRef) : Solver := s ++ cs.

Definition satisfies (m : model) (s : Solver) : bool := forallb (holds m) s.

Definition satisfiable (s : Solver) : Prop := exists m, satisfies m s = true.

Definition unsatisfiable (s : Solver) : Prop := forall m, satisfies m s = false.

(** The three values [check()] can return. *)
Inductive CheckSatResult : Type := sat | unsat | unknown.

Definition CheckSatResult_eqb (a b : CheckSatResult) : bool :=
  match a, b with
  | sat, sat | unsat, unsat | unknown, unknown => true
  | _, _ => false
  end.

(** The decision procedure, as the notebook sees it. *)
Definition oracle : Type := Solver -> CheckSatResult.

(** An oracle that answers [sat] only on satisfiable assertion lists. *)
Definition sound (check : oracle) : Prop :=
  forall s, check s = sat -> satisfiable s.

(** [lo <= v, v <= hi] with Python ints [lo] and [hi]: the first comparison
    has the int on the left, so Python dispatches to the reflected
    [v.__ge__(lo)]. *)
Definition bounds (lo hi : Z) (v : ArithRef) : list BoolRef :=
  [Ge v (IntVal lo); Le v (IntVal hi)].

End Z3.

(** ** Python values the notebook asserts on *)

Module Python.

Inductive exn : Type := AssertionError (msg : string).

Inductive result (A : Type) : Type :=
| Ok (a : A)
| Raise (e : exn).
Arguments Ok {A} a.
Arguments Raise {A} e.

Definition bind {A B} (r : result A) (k : A -> result B) : result B :=
  match r with
  | Ok a => k a
  | Raise e => Raise e
  end.

Definition raises {A} (r : result A) : bool :=
  match r with
  | Ok _ => false
  | Raise _ => true
  end.

(** What an [assert] is given here: a [bool] (the value of
    [check() == sat]) or the [CheckSatResult] instance itself.  Python takes
    an object for true unless its class defines [__bool__] or [__len__];
    the binding's [CheckSatResult] defines equality and printing only. *)
Inductive value : Type :=
| PyBool (b : bool)
| PyCheckSatResult (r : Z3.CheckSatResult).

Definition truth (v : value) : bool :=
  match v with
  | PyBool b => b
  | PyCheckSatResult _ => true
  end.

(** [assert v, msg] *)
Definition assert (v : value) (msg : string) : result unit :=
  if truth v then Ok tt else Raise (AssertionError msg).

(** [r == sat] *)
Definition eq_sat (r : Z3.CheckSatResult) : value :=
  PyBool (Z3.CheckSatResult_eqb r Z3.sat).

(** ['{}'.format(n)] for a non-negative int *)
Definition format_nat (n : nat) : string :=
  NilEmpty.string_of_uint (Nat.to_uint n).

(** [enumerate(l)] *)
Definition enumerate {A} (l : list A) : list (nat * A) :=
  combine (seq 0 (List.length l)) l.

(** [zip( *ls )]: the columns of [ls], as long as the shortest row. *)
Fixpoint zip_star {A} (ls : list (list A)) : list (list A) :=
  match ls with
  | [] => []
  | [r] => map (fun x => [x]) r
  | r :: rest => map (fun p => fst p :: snd p) (combine r (zip_star rest))
  end.

(** [l[a:b]] for [0 <= a <= b] *)
Definition slice {A} (l : list A) (a b : nat) : list A :=
  firstn (b - a) (skipn a l).

(** A float literal [m e k], for a value that is an integer below [2^53] in
    absolute value: such a decimal is a double, so the literal denotes it
    with no rounding. *)
Definition float_literal (mant : Z) (exp10 : nat) : Q :=
  inject_Z (mant * 10 ^ Z.of_nat exp10).

Definition exact_double (v : Z) : bool := Z.abs v <=? 2 ^ 53.

(** [int(x)] on a float: truncation towards zero. *)
Definition int_of_float (q : Q) : Z := Z.quot (Qnum q) (Z.pos (Qden q)).

(** [e * x] for an integer term [e] and a Python float [x]: the binding
    casts the operand to the sort of [e], and its cast of a float to the
    integer sort is [IntVal(int(x))]. *)
Definition mul_float (e : Z3.ArithRef) (x : Q) : Z3.ArithRef :=
  Z3.Mul e (Z3.IntVal (int_of_float x)).

End Python.

Import Z3 Python.

(** ** I. Cryptarithmetic *)

Module Cryptarithmetic.

Definition F := Int "F".
Definition O := Int "O".
Definition R := Int "R".
Definition T := Int "T".
Definition U := Int "U".
Definition W := Int "W".

(** The names declared in this section. *)
Definition letters : list string := ["F"; "O"; "R"; "T"; "U"; "W"].

(** Cell 5: declarations and [0 <= X, X <= 9] for each letter. *)
Definition cell_declare (ca_solver : Solver) : Solver :=
  let ca_solver := add ca_solver (bounds 0 9 F) in
  let ca_solver := add ca_solver (bounds 0 9 O) in
  let ca_solver := add ca_solver (bounds 0 9 R) in
  let ca_solver := add ca_solver (bounds 0 9 T) in
  let ca_solver := add ca_solver (bounds 0 9 U) in
  add ca_solver (bounds 0 9 W).

(** Cell 7: leading digits and [Distinct]. *)
Definition cell_assumptions (ca_solver : Solver) : Solver :=
  let ca_solver := add ca_solver [Ne F (IntVal 0); Ne T (IntVal 0)] in
  add ca_solver [Distinct [F; O; R; T; U; W]].

(** Cell 9:
    [(T+T)*1e2+(W+W)*1e1 + (O+O)*1e0 == F *1e3 + O * 1e2 + U*1e1 + R*1e0] *)
Definition sum_constraint : BoolRef :=
  Eq (Add (Add (mul_float (Add T T) (float_literal 1 2))
               (mul_float (Add W W) (float_literal 1 1)))
          (mul_float (Add O O) (float_literal 1 0)))
     (Add (Add (Add (mul_float F (float_literal 1 3))
                    (mul_float O (float_literal 1 2)))
               (mul_float U (float_literal 1 1)))
          (mul_float R (float_literal 1 0))).

Definition cell_sum (ca_solver : Solver) : Solver :=
  add ca_solver [sum_constraint].

(** The solver as it stands when cell 10 runs. *)
Definition ca_solver : Solver :=
  cell_sum (cell_assumptions (cell_declare new_solver)).

(** Cell 10, up to the prints. *)
Definition cell_check (check : oracle) (ca_solver : Solver) : result unit :=
  assert (eq_sat (check ca_solver))
    "Uh oh...the solver did not find a solution. Check your constraints.".

Definition section (check : oracle) : result unit :=
  cell_check check ca_solver.

(** The model printed under cell 10. *)
Definition printed_model : model :=
  model_of [("T", 8); ("W", 4); ("O", 6); ("F", 1); ("U", 9); ("R", 2)].

End Cryptarithmetic.

(** ** II. Map coloring *)

Module MapColoring.

Definition WA := Int "WA".
Definition SA := Int "SA".
Definition NT := Int "NT".
Definition Q := Int "Q".
Definition NSW := Int "NSW".
Definition V := Int "V".
Definition T := Int "T".

(** The names declared in this section. *)
Definition regions : list string := ["WA"; "SA"; "NT"; "Q"; "NSW"; "V"; "T"].

(** Cell 15: [0 <= X, X <= 2] for each region. *)
Definition cell_declare (mc_solver : Solver) : Solver :=
  let mc_solver := add mc_solver (bounds 0 2 WA) in
  let mc_solver := add mc_solver (bounds 0 2 SA) in
  let mc_solver := add mc_solver (bounds 0 2 NT) in
  let mc_solver := add mc_solver (bounds 0 2 Q) in
  let mc_solver := add mc_solver (bounds 0 2 NSW) in
  let mc_solver := add mc_solver (bounds 0 2 V) in
  add mc_solver (bounds 0 2 T).

(** The dict [adjacent] of cell 17, in insertion order.  Its six keys are
    different constants, so iterating over the keys and indexing the dict
    with each visits these pairs in this order. *)
Definition adjacent : list (ArithRef * list ArithRef) :=
  [ (WA, [NT; SA]);
    (NT, [WA; SA; Q]);
    (SA, [WA; NT; Q; V; NSW]);
    (Q, [NT; SA; NSW]);
    (NSW, [Q; SA; V]);
    (V, [SA; NSW]) ].

(** Cell 17: [for rT in adjacent: for rT2 in adjacent[rT]: add(rT != rT2)] *)
Definition cell_adjacent (mc_solver : Solver) : Solver :=
  fold_left
    (fun s entry =>
       fold_left (fun s rT2 => add s [Ne (fst entry) rT2]) (snd entry) s)
    adjacent mc_solver.

(** The solver as it stands when cell 18 runs. *)
Definition mc_solver : Solver := cell_adjacent (cell_declare new_solver).

(** Cell 18, up to the prints. *)
Definition cell_check (check : oracle) (mc_solver : Solver) : result unit :=
  assert (eq_sat (check mc_solver))
    "Uh oh. The solver failed to find a solution. Check your constraints.".

Definition section (check : oracle) : result unit :=
  cell_check check mc_solver.

(** The model printed under cell 18 (0 = Blue, 1 = Red, 2 = Green). *)
Definition printed_model : model :=
  model_of [("WA", 2); ("NT", 1); ("SA", 0); ("Q", 2); ("NSW", 1); ("V", 2);
            ("T", 0)].

End MapColoring.

(** ** III. N-queens *)

Module NQueens.

(** Cell 21: [def Abs(x): return If(x >= 0, x, -x)] *)
Definition Abs (x : ArithRef) : ArithRef := If (Ge x (IntVal 0)) x (Neg x).

(** [[Int('Q{}'.format(ii)) for ii in range(N)]] *)
Definition queen_name (ii : nat) : string := String.append "Q" (format_nat ii).

Definition queens (N : nat) : list ArithRef :=
  map (fun ii => Int (queen_name ii)) (seq 0 N).

(** The constraint added for the pair [(i, queen1)], [(j, queen2)]:
    [Abs(queen1-queen2) != abs(i-j)] *)
Definition diagonal (i : nat) (queen1 : ArithRef) (j : nat) (queen2 : ArithRef)
  : BoolRef :=
  Ne (Abs (Sub queen1 queen2)) (IntVal (Z.abs (Z.of_nat i - Z.of_nat j))).

(** Cell 21: [nqueens(N)], for [N >= 1].  For [N = 0] the list [queens] is
    empty, the binding's [Distinct] refuses an empty argument list, and the
    call raises before any solver is returned: the properties of the
    returned solver are stated for [1 <= N]. *)
Definition nqueens (N : nat) : Solver :=
  let nq_solver := new_solver in
  let queens := queens N in
  let nq_solver := add nq_solver (flat_map (bounds 0 9) queens) in
  let nq_solver := add nq_solver [Distinct queens] in
  fold_left
    (fun s iq1 =>
       fold_left
         (fun s jq2 =>
            if Nat.eqb (fst iq1) (fst jq2) then s
            else add s [diagonal (fst iq1) (snd iq1) (fst jq2) (snd jq2)])
         (enumerate queens) s)
    (enumerate queens) nq_solver.

Definition sizes : list nat := [8; 16; 32; 64]%nat.

(** Cell 22, the loop over [sizes], up to timing and prints:
    [nq_solver = nqueens(N); assert nq_solver.check(), msg;
     solutions.append(nq_solver)].  The assert is given the value of
    [check()] itself. *)
Definition benchmark (check : oracle) (sizes : list nat) : result (list Solver) :=
  fold_left
    (fun acc N =>
       bind acc (fun solutions =>
       let nq_solver := nqueens N in
       bind (assert (PyCheckSatResult (check nq_solver))
               "Uh oh...The solver failed to find a solution. Check your constraints.")
            (fun _ => Ok (solutions ++ [nq_solver]))))
    sizes (Ok []).

Definition section (check : oracle) : result (list Solver) :=
  benchmark check sizes.

(** A placement of eight queens, column by column. *)
Definition eight_queens : model :=
  model_of [("Q0", 0); ("Q1", 4); ("Q2", 7); ("Q3", 5); ("Q4", 2); ("Q5", 6);
            ("Q6", 1); ("Q7", 3)].

End NQueens.

(** ** IV. Sudoku *)

Module Sudoku.

Definition rows : string := "ABCDEFGHI".
Definition cols : string := "123456789".

(** ["{}{}".format(r, c)] *)
Definition box_name (r c : ascii) : string := String r (String c EmptyString).

(** Cell 25: [[[Int("{}{}".format(r, c)) for c in cols] for r in rows]] *)
Definition boxes : list (list ArithRef) :=
  map (fun r => map (fun c => Int (box_name r c)) (list_ascii_of_string cols))
      (list_ascii_of_string rows).

(** [chain(boxes[a][b:b+3], boxes[a+1][b:b+3], boxes[a+2][b:b+3])];
    the indices used are below 9, so no lookup is out of range. *)
Definition block (a b : nat) : list ArithRef :=
  slice (nth a boxes []) b (b + 3)
  ++ slice (nth (a + 1) boxes []) b (b + 3)
  ++ slice (nth (a + 2) boxes []) b (b + 3).

(** Cell 28: the general constraints. *)
Definition cell_general (s_solver : Solver) : Solver :=
  let s_solver := add s_solver (flat_map (bounds 1 9) (List.concat boxes)) in
  let s_solver := add s_solver (map Distinct boxes) in
  let s_solver := add s_solver (map Distinct (zip_star boxes)) in
  fold_left
    (fun s a => fold_left (fun s b => add s [Distinct (block a b)])
                  [0; 3; 6]%nat s)
    [0; 3; 6]%nat s_solver.

(** Cell 30: the board in force (the first one is commented out). *)
Definition board : list (list Z) :=
  [ [8; 0; 0; 0; 0; 0; 0; 0; 0];
    [0; 0; 3; 6; 0; 0; 0; 0; 0];
    [0; 7; 0; 0; 9; 0; 2; 0; 0];
    [0; 5; 0; 0; 0; 7; 0; 0; 0];
    [0; 0; 0; 0; 4; 5; 7; 0; 0];
    [0; 0; 0; 1; 0; 0; 0; 3; 0];
    [0; 0; 1; 0; 0; 0; 0; 6; 8];
    [0; 0; 8; 5; 0; 0; 0; 1; 0];
    [0; 9; 0; 0; 0; 0; 4; 0; 0] ].

(** [board[row][column]] and [boxes[row][column]], for indices below 9. *)
Definition board_at (row column : nat) : Z := nth column (nth row board []) 0.

Definition box_at (row column : nat) : ArithRef :=
  nth column (nth row boxes []) (IntVal 0).

(** The constraint a non-blank cell receives. *)
Definition hint (row column : nat) : BoolRef :=
  Eq (box_at row column) (IntVal (board_at row column)).

(** Cell 30: the loop over [range(9)] x [range(9)]. *)
Definition cell_hints (s_solver : Solver) : Solver :=
  fold_left
    (fun s row =>
       fold_left
         (fun s column =>
            if negb (board_at row column =? 0)
            then add s [hint row column]
            else s)
         (seq 0 9) s)
    (seq 0 9) s_solver.

(** The solver as it stands when cell 31 runs. *)
Definition s_solver : Solver := cell_hints (cell_general new_solver).

(** Cell 31, up to the prints. *)
Definition cell_check (check : oracle) (s_solver : Solver) : result unit :=
  assert (eq_sat (check s_solver))
    "Uh oh. The solver didn't find a solution. Check your constraints.".

Definition section (check : oracle) : result unit :=
  cell_check check s_solver.

(** The grid printed under cell 31. *)
Definition printed_grid : list (list Z) :=
  [ [8; 1; 2; 7; 5; 3; 6; 4; 9];
    [9; 4; 3; 6; 8; 2; 1; 7; 5];
    [6; 7; 5; 4; 9; 1; 2; 8; 3];
    [1; 5; 4; 2; 3; 7; 8; 9; 6];
    [3; 6; 9; 8; 4; 5; 7; 2; 1];
    [2; 8; 7; 1; 6; 9; 5; 3; 4];
    [5; 2; 1; 9; 7; 4; 3; 6; 8];
    [4; 3; 8; 5; 2; 6; 9; 1; 7];
    [7; 9; 6; 3; 1; 8; 4; 5; 2] ].

Definition name_at (row column : nat) : string :=
  box_name (nth row (list_ascii_of_string rows) "?"%char)
           (nth column (list_ascii_of_string cols) "?"%char).

Definition printed_model : model :=
  model_of
    (flat_map
       (fun row =>
          map (fun column =>
                 (name_at row column, nth column (nth row printed_grid []) 0))
              (seq 0 9))
       (seq 0 9)).

End Sudoku.

(** * Vocabulary of the properties *)

(** The puzzle's equation on the integer values a model gives the letters. *)
Definition two_two_four (m : model) : Prop :=
  (m "T" + m "T") * 100 + (m "W" + m "W") * 10 + (m "O" + m "O")
  = m "F" * 1000 + m "O" * 100 + m "U" * 10 + m "R".

(** The constraint of cell 9 as it would be if the float operands were kept
    as real numerals. *)
Definition sum_constraint_as_reals : BoolRef :=
  Eq (Add (Add (Mul (Add (Int "T") (Int "T")) (RealVal (float_literal 1 2)))
               (Mul (Add (Int "W") (Int "W")) (RealVal (float_literal 1 1))))
          (Mul (Add (Int "O") (Int "O")) (RealVal (float_literal 1 0))))
     (Add (Add (Add (Mul (Int "F") (RealVal (float_literal 1 3)))
                    (Mul (Int "O") (RealVal (float_literal 1 2))))
               (Mul (Int "U") (RealVal (float_literal 1 1))))
          (Mul (Int "R") (RealVal (float_literal 1 0)))).

(** The same expression with every real numeral cast to an integer numeral,
    as the binding casts a float operand of an integer term. *)
Fixpoint int_cast (e : ArithRef) : ArithRef :=
  match e with
  | Int x => Int x
  | IntVal n => IntVal n
  | RealVal q => IntVal (int_of_float q)
  | Add a b => Add (int_cast a) (int_cast b)
  | Sub a b => Sub (int_cast a) (int_cast b)
  | Mul a b => Mul (int_cast a) (int_cast b)
  | Neg a => Neg (int_cast a)
  | If c a b => If (int_cast_of c) (int_cast a) (int_cast b)
  end
with int_cast_of (c : BoolRef) : BoolRef :=
  match c with
  | Le a b => Le (int_cast a) (int_cast b)
  | Ge a b => Ge (int_cast a) (int_cast b)
  | Eq a b => Eq (int_cast a) (int_cast b)
  | Ne a b => Ne (int_cast a) (int_cast b)
  | Distinct args => Distinct (map int_cast args)
  end.

(** Whether a constraint mentions the constant [x]. *)
Definition mentions (x : string) (c : BoolRef) : bool :=
  existsb (String.eqb x) (consts_of c).

(** The row of queen [i] in a model. *)
Definition queen_row (m : model) (i : nat) : Z := m (NQueens.queen_name i).

(** No two of the [N] queens share a row or a diagonal. *)
Definition non_attacking (N : nat) (m : model) : Prop :=
  forall i j, (i < N)%nat -> (j < N)%nat -> i <> j ->
    queen_row m i <> queen_row m j
    /\ Z.abs (queen_row m i - queen_row m j) <> Z.abs (Z.of_nat i - Z.of_nat j).

(** The value a model gives the box in row [row], column [column]. *)
Definition value_at (m : model) (row column : nat) : Z :=
  m (Sudoku.name_at row column).

(** The four problem sections; the N-queens solver is built per size. *)
Inductive problem : Type :=
| cryptarithmetic
| map_coloring
| n_queens (N : nat)
| sudoku.

(** The names each section declares with [Int(...)]. *)
Definition declared (p : problem) : list string :=
  match p with
  | cryptarithmetic => Cryptarithmetic.letters
  | map_coloring => MapColoring.regions
  | n_queens N => map NQueens.queen_name (seq 0 N)
  | sudoku =>
      flat_map (fun row => map (Sudoku.name_at row) (seq 0 9)) (seq 0 9)
  end.

(** The assertions of the section's solver when its [check()] is called. *)
Definition solver_at_check (p : problem) : Solver :=
  match p with
  | cryptarithmetic => Cryptarithmetic.ca_solver
  | map_coloring => MapColoring.mc_solver
  | n_queens N => NQueens.nqueens N
  | sudoku => Sudoku.s_solver
  end.

(** The interval of the section. *)
Definition domain (p : problem) : Z * Z :=
  match p with
  | cryptarithmetic => (0, 9)
  | map_coloring => (0, 2)
  | n_queens _ => (0, 9)
  | sudoku => (1, 9)
  end.

(** The asserting cell of each section, as an outcome. *)
Definition asserting_cell (p : problem) (check : oracle) : result unit :=
  match p with
  | cryptarithmetic => Cryptarithmetic.section check
  | map_coloring => MapColoring.section check
  | n_queens N => bind (NQueens.benchmark check [N]) (fun _ => Ok tt)
  | sudoku => Sudoku.section check
  end.

(** * The printing cells, and the hint loop on any board *)

Module Output.

(** What stops a cell: an uncaught assertion, a missing dict key, or the
    binding refusing a model lookup on something that is not a constant. *)
Inductive error : Type :=
| Uncaught (e : exn)
| KeyError (key : string)
| Z3Exception.

(** What a run of statements wrote, and the exception that ended it. *)
Definition run : Type := (string * option error)%type.

Definition newline : string := String (ascii_of_nat 10) EmptyString.

(** [print(s)] and [print(s, end='')] *)
Definition print (s : string) : run := (s ++ newline, None)%string.
Definition print_end (s : string) : run := (s, None).

Definition raise (e : error) : run := (EmptyString, Some e).

(** [p; q]: [q] runs only if [p] ended normally. *)
Definition andthen (p q : run) : run :=
  match snd p with
  | Some _ => p
  | None => (fst p ++ fst q, snd q)%string
  end.

(** The statements of a loop, one after the other. *)
Definition for_each {A} (body : A -> run) (l : list A) : run :=
  fold_left (fun acc x => andthen acc (body x)) l (EmptyString, None).

(** [assert v, msg] as a statement. *)
Definition asserting (r : result unit) : run :=
  match r with
  | Ok _ => (EmptyString, None)
  | Raise e => raise (Uncaught e)
  end.

(** [model[c]]: the value of a constant. *)
Definition getitem (found : model) (c : ArithRef) : option Z :=
  match c with
  | Int x => Some (found x)
  | _ => None
  end.

(** How an integer value is written: [as_string()], and [format] of it. *)
Definition as_string (v : Z) : string := NilZero.string_of_int (Z.to_int v).

(** [s * n] on a string *)
Fixpoint times (s : string) (n : nat) : string :=
  match n with
  | O => EmptyString
  | S n => (s ++ times s n)%string
  end.

(** [d[k]] on a dict given by its items. *)
Definition lookup (d : list (string * string)) (k : string) : option string :=
  match find (fun kv => String.eqb (fst kv) k) d with
  | Some kv => Some (snd kv)
  | None => None
  end.

End Output.

Import Output.

Module CryptarithmeticOutput.

(** [template.format(model[a], model[b], ...)]: each argument written after
    the text that precedes its placeholder. *)
Fixpoint format (found : model) (pieces : list (string * ArithRef))
         (rest : string) : option string :=
  match pieces with
  | [] => Some rest
  | (text, c) :: pieces =>
      match getitem found c, format found pieces rest with
      | Some v, Some s => Some (text ++ as_string v ++ s)%string
      | _, _ => None
      end
  end.

Definition print_format (found : model) (pieces : list (string * ArithRef))
  : run :=
  match format found pieces EmptyString with
  | Some s => print s
  | None => raise Z3Exception
  end.

(** Cell 10: the assert, then the four prints. *)
Definition cell (check : oracle) (found : model) : run :=
  andthen (asserting (Cryptarithmetic.cell_check check Cryptarithmetic.ca_solver))
 (andthen (print_format found
             [("  T W O  :    ", Cryptarithmetic.T); (" ", Cryptarithmetic.W);
              (" ", Cryptarithmetic.O)])
 (andthen (print_format found
             [("+ T W O  :  + ", Cryptarithmetic.T); (" ", Cryptarithmetic.W);
              (" ", Cryptarithmetic.O)])
 (andthen (print "-------  :  -------")
          (print_format found
             [("F O U R  :  ", Cryptarithmetic.F); (" ", Cryptarithmetic.O);
              (" ", Cryptarithmetic.U); (" ", Cryptarithmetic.R)])))).

End CryptarithmeticOutput.

Module MapColoringOutput.

(** Cell 13: [colors = {'0': "Blue", '1': "Red", '2': "Green"}] *)
Definition colors : list (string * string) :=
  [("0", "Blue"); ("1", "Red"); ("2", "Green")].

(** [print("WA={}".format(colors[model[WA].as_string()]))] *)
Definition print_color (found : model) (label : string) (region : ArithRef)
  : run :=
  match getitem found region with
  | None => raise Z3Exception
  | Some v =>
      match lookup colors (as_string v) with
      | None => raise (KeyError (as_string v))
      | Some c => print (label ++ c)
      end
  end.

(** Cell 18: the assert, then the seven prints. *)
Definition cell (check : oracle) (found : model) : run :=
  andthen (asserting (MapColoring.cell_check check MapColoring.mc_solver))
 (andthen (print_color found "WA=" MapColoring.WA)
 (andthen (print_color found "NT=" MapColoring.NT)
 (andthen (print_color found "SA=" MapColoring.SA)
 (andthen (print_color found "Q=" MapColoring.Q)
 (andthen (print_color found "NSW=" MapColoring.NSW)
 (andthen (print_color found "V=" MapColoring.V)
          (print_color found "T=" MapColoring.T))))))).

End MapColoringOutput.

Module SudokuOutput.

(** ['-'*9+"|"+'-'*9+"|"+'-'*9] *)
Definition rule : string :=
  (times "-" 9 ++ "|" ++ times "-" 9 ++ "|" ++ times "-" 9)%string.

(** [x and x % 3 == 0] as a condition *)
Definition third (x : nat) : bool :=
  negb (Nat.eqb x 0) && Nat.eqb (x mod 3) 0.

(** The body of the inner loop of cell 31. *)
Definition print_box (found : model) (col : nat) (box : ArithRef) : run :=
  andthen (if third col then print_end "|" else (EmptyString, None))
          (match getitem found box with
           | Some v => print_end (" " ++ as_string v ++ " ")
           | None => raise Z3Exception
           end).

(** The body of the outer loop. *)
Definition print_row (found : model) (row : nat) (_boxes : list ArithRef)
  : run :=
  andthen (if third row then print rule else (EmptyString, None))
 (andthen (for_each (fun cb => print_box found (fst cb) (snd cb))
                    (enumerate _boxes))
          (print EmptyString)).

(** Cell 31: the assert, then the grid. *)
Definition cell (check : oracle) (found : model) : run :=
  andthen (asserting (Sudoku.cell_check check Sudoku.s_solver))
          (for_each (fun rb => print_row found (fst rb) (snd rb))
                    (enumerate Sudoku.boxes)).

End SudokuOutput.

Module SudokuBoards.

(** The loop of cell 30 for a board that is not the one in force.
    [board[row][column]] is read first, in the condition; an index that is
    out of range ends the loop with [IndexError], here [None]. *)
Definition hints_for (board : list (list Z)) (s_solver : Solver)
  : option Solver :=
  fold_left
    (fun acc row =>
       fold_left
         (fun acc column =>
            match acc with
            | None => None
            | Some s =>
                match nth_error board row with
                | None => None
                | Some board_row =>
                    match nth_error board_row column with
                    | None => None
                    | Some v =>
                        if negb (v =? 0)
                        then Some (add s [Eq (Sudoku.box_at row column)
                                             (IntVal v)])
                        else Some s
                    end
                end
            end)
         (seq 0 9) acc)
    (seq 0 9) (Some s_solver).

(** Cells 28 and 30 on a fresh solver. *)
Definition solver_for (board : list (list Z)) : option Solver :=
  hints_for board (Sudoku.cell_general new_solver).

(** The entry the loop reads at an index that exists. *)
Definition entry (board : list (list Z)) (row column : nat) : Z :=
  nth column (nth row board []) 0.

(** At least nine rows, the first nine of at least nine entries. *)
Definition indexable (board : list (list Z)) : Prop :=
  (9 <= List.length board)%nat
  /\ forall row, (row < 9)%nat -> (9 <= List.length (nth row board []))%nat.

End SudokuBoards.

(** * Vocabulary of the further properties *)

(** Ten queens on the ten rows the bounds allow, the first on row 9. *)
Definition ten_queens : model :=
  model_of [("Q0", 9); ("Q1", 7); ("Q2", 4); ("Q3", 2); ("Q4", 0); ("Q5", 5);
            ("Q6", 1); ("Q7", 8); ("Q8", 6); ("Q9", 3)].

(** The digits a model gives F, O, R, T, U, W, for the seven ways to write
    TWO + TWO = FOUR. *)
Definition ca_solutions : list (list Z) :=
  [ [1; 4; 8; 7; 6; 3];
    [1; 5; 0; 7; 3; 6];
    [1; 6; 2; 8; 7; 3];
    [1; 6; 2; 8; 9; 4];
    [1; 7; 4; 8; 3; 6];
    [1; 8; 6; 9; 5; 2];
    [1; 8; 6; 9; 7; 3] ].

(** The digits F, O, R, T, U, W of the sum of [TWO] with itself. *)
Definition ca_candidate (t w o : Z) : list Z :=
  let four := 2 * (100 * t + 10 * w + o) in
  [four / 1000; o; four mod 10; t; (four / 10) mod 10; w].

(** Pairwise-distinct integers. *)
Fixpoint distinctZ (l : list Z) : bool :=
  match l with
  | [] => true
  | x :: r => forallb (fun y => negb (x =? y)) r && distinctZ r
  end.

(** The constraints of [ca_solver] on six integers. *)
Definition ca_ok (l : list Z) : bool :=
  match l with
  | [f; o; r; t; u; w] =>
      forallb (fun v => (0 <=? v) && (v <=? 9)) l
      && negb (f =? 0) && negb (t =? 0)
      && distinctZ l
      && ((t + t) * 100 + (w + w) * 10 + (o + o)
          =? f * 1000 + o * 100 + u * 10 + r)
  | _ => false
  end.

Definition digits : list Z := [0; 1; 2; 3; 4; 5; 6; 7; 8; 9].

(** The name of a color number of the palette. *)
Definition color_of (v : Z) : string :=
  if v =? 0 then "Blue" else if v =? 1 then "Red" else "Green".

(** The character of a digit. *)
Definition digit_char (v : Z) : ascii := ascii_of_nat (48 + Z.to_nat v).

(** The text of a grid that shows the character [ch r c] for the box of row
    [r], column [c]. *)
Definition grid_text (ch : nat -> nat -> ascii) : string :=
  String.concat EmptyString
    (map (fun r =>
            (if SudokuOutput.third r
             then SudokuOutput.rule ++ newline else EmptyString)
            ++ String.concat EmptyString
                 (map (fun c =>
                         (if SudokuOutput.third c then "|" else EmptyString)
                         ++ " " ++ String (ch r c) " ")
                      (seq 0 9))
            ++ newline)%string
         (seq 0 9)).

(** Where the printed grid shows the box of row [r], column [c]: lines of 30
    characters with the line break, a rule before rows 3 and 6, three
    characters per box and a bar before columns 3 and 6. *)
Definition grid_offset (r c : nat) : nat :=
  (30 * (r + r / 3) + 3 * c + c / 3 + 1)%nat.

(** * Properties *)

(** ** Comparisons of injected integers *)

Lemma Qle_bool_inject (a b : Z) :
  Qle_bool (inject_Z a) (inject_Z b) = true <-> a <= b.
Proof.
  rewrite Qle_bool_iff, <- Zle_Qle. reflexivity.
Qed.

Lemma Qeq_bool_inject (a b : Z) :
  Qeq_bool (inject_Z a) (inject_Z b) = true <-> a = b.
Proof.
  rewrite Qeq_bool_iff. split.
  - apply inject_Z_injective.
  - intros ->. reflexivity.
Qed.

Lemma Qneq_bool_inject (a b : Z) :
  negb (Qeq_bool (inject_Z a) (inject_Z b)) = true <-> a <> b.
Proof.
  rewrite negb_true_iff, <- not_true_iff_false, Qeq_bool_inject. tauto.
Qed.

Lemma distinctb_inject (l : list Z) :
  distinctb (map inject_Z l) = true <-> NoDup l.
Proof.
  induction l as [|x l IH]; cbn [map distinctb].
  - split; [constructor | reflexivity].
  - rewrite andb_true_iff, IH, forallb_forall, NoDup_cons_iff.
    split; intros [Hx Hl]; split; trivial.
    + intros Hin. apply (in_map inject_Z) in Hin.
      apply Hx in Hin. apply Qneq_bool_inject in Hin. congruence.
    + intros y Hy. apply in_map_iff in Hy as (z & <- & Hz).
      apply Qneq_bool_inject. congruence.
Qed.

(** ** Reading the assertions of a solver *)

Lemma eval_Int (m : model) (names : list string) :
  map (eval m) (map Int names) = map inject_Z (map m names).
Proof.
  rewrite !map_map. reflexivity.
Qed.

Lemma satisfies_In (m : model) (s : Solver) (c : BoolRef) :
  satisfies m s = true -> In c s -> holds m c = true.
Proof.
  unfold satisfies. rewrite forallb_forall. auto.
Qed.

Lemma holds_lower (m : model) (x : string) (lo : Z) :
  holds m (Ge (Int x) (IntVal lo)) = true <-> lo <= m x.
Proof. apply Qle_bool_inject. Qed.

Lemma holds_upper (m : model) (x : string) (hi : Z) :
  holds m (Le (Int x) (IntVal hi)) = true <-> m x <= hi.
Proof. apply Qle_bool_inject. Qed.

Lemma holds_Ne_Int (m : model) (x y : string) :
  holds m (Ne (Int x) (Int y)) = true <-> m x <> m y.
Proof. apply Qneq_bool_inject. Qed.

Lemma holds_Ne_IntVal (m : model) (x : string) (n : Z) :
  holds m (Ne (Int x) (IntVal n)) = true <-> m x <> n.
Proof. apply Qneq_bool_inject. Qed.

Lemma holds_Eq_IntVal (m : model) (x : string) (n : Z) :
  holds m (Eq (Int x) (IntVal n)) = true <-> m x = n.
Proof. apply Qeq_bool_inject. Qed.

Lemma holds_Distinct_Int (m : model) (names : list string) :
  holds m (Distinct (map Int names)) = true <-> NoDup (map m names).
Proof.
  cbn [holds]. rewrite eval_Int. apply distinctb_inject.
Qed.

(** A loop that only adds is an append of what each round adds. *)
Lemma fold_left_add {A} (f : A -> list BoolRef) (l : list A) (s : Solver) :
  fold_left (fun s x => add s (f x)) l s = s ++ flat_map f l.
Proof.
  revert s. induction l as [|x l IH]; intros s; cbn [fold_left flat_map].
  - now rewrite app_nil_r.
  - rewrite IH. unfold add. now rewrite app_assoc.
Qed.

Lemma bounds_In (lo hi : Z) (vs : list ArithRef) (x : string) :
  In (Int x) vs ->
  In (Ge (Int x) (IntVal lo)) (flat_map (bounds lo hi) vs)
  /\ In (Le (Int x) (IntVal hi)) (flat_map (bounds lo hi) vs).
Proof.
  intros Hx. split; apply in_flat_map; exists (Int x); split; trivial;
    cbn; auto.
Qed.

(** ** I. Cryptarithmetic *)

Lemma sum_constraint_integers (m : model) :
  holds m Cryptarithmetic.sum_constraint = true <-> two_two_four m.
Proof.
  unfold Cryptarithmetic.sum_constraint, two_two_four, mul_float.
  unfold Cryptarithmetic.F, Cryptarithmetic.O, Cryptarithmetic.R,
    Cryptarithmetic.T, Cryptarithmetic.U, Cryptarithmetic.W.
  change (int_of_float (float_literal 1 0)) with 1.
  change (int_of_float (float_literal 1 1)) with 10.
  change (int_of_float (float_literal 1 2)) with 100.
  change (int_of_float (float_literal 1 3)) with 1000.
  cbn [holds eval]. rewrite Qeq_bool_iff.
  rewrite <- !inject_Z_plus, <- !inject_Z_mult, <- !inject_Z_plus.
  rewrite inject_Z_injective. lia.
Qed.

(** Membership of a closed constraint in a closed assertion list. *)
Ltac in_solver :=
  vm_compute;
  repeat match goal with
         | |- _ \/ _ => first [left; reflexivity | right]
         end.

Ltac asserted m H c :=
  let Hc := fresh "Hc" in
  assert (Hc : holds m c = true) by (apply (satisfies_In m _ c H); in_solver);
  revert Hc.

(** C4. Every model of [ca_solver] gives the six letters pairwise-distinct
    digits in 0..9, with F and T non-zero, and TWO + TWO = FOUR:
    2*(100*T + 10*W + O) = 1000*F + 100*O + 10*U + R. *)
Theorem ca_models_solve_puzzle (m : model) :
  satisfies m Cryptarithmetic.ca_solver = true ->
  NoDup (map m Cryptarithmetic.letters)
  /\ Forall (fun x => 0 <= m x <= 9) Cryptarithmetic.letters
  /\ m "F" <> 0 /\ m "T" <> 0
  /\ 2 * (100 * m "T" + 10 * m "W" + m "O")
     = 1000 * m "F" + 100 * m "O" + 10 * m "U" + m "R".
Proof.
  intros H.
  assert (Hb : forall x, In x Cryptarithmetic.letters -> 0 <= m x <= 9).
  { intros x Hx. split.
    - apply holds_lower. apply (satisfies_In m _ _ H).
      cbn in Hx. repeat destruct Hx as [<- | Hx]; try contradiction; in_solver.
    - apply holds_upper. apply (satisfies_In m _ _ H).
      cbn in Hx. repeat destruct Hx as [<- | Hx]; try contradiction; in_solver. }
  asserted m H (Distinct (map Int Cryptarithmetic.letters)).
  rewrite holds_Distinct_Int. intros Hd.
  asserted m H (Ne (Int "F") (IntVal 0)). rewrite holds_Ne_IntVal. intros HF.
  asserted m H (Ne (Int "T") (IntVal 0)). rewrite holds_Ne_IntVal. intros HT.
  asserted m H Cryptarithmetic.sum_constraint.
  rewrite sum_constraint_integers. unfold two_two_four. intros Hs.
  repeat split; trivial.
  - apply Forall_forall. exact Hb.
  - lia.
Qed.

Lemma ca_models_solve_puzzle_witness :
  satisfies Cryptarithmetic.printed_model Cryptarithmetic.ca_solver = true
  /\ NoDup (map Cryptarithmetic.printed_model Cryptarithmetic.letters)
  /\ Forall (fun x => 0 <= Cryptarithmetic.printed_model x <= 9)
       Cryptarithmetic.letters
  /\ Cryptarithmetic.printed_model "F" <> 0
  /\ Cryptarithmetic.printed_model "T" <> 0
  /\ 2 * (100 * 8 + 10 * 4 + 6) = 1000 * 1 + 100 * 6 + 10 * 9 + 2.
Proof.
  split.
  - reflexivity.
  - apply (ca_models_solve_puzzle Cryptarithmetic.printed_model). reflexivity.
Defined.

(** Kept as real numerals, the float operands would give a constraint with
    the same models, and casting its numerals gives the constraint of
    cell 9. *)
Lemma sum_constraint_int_cast (m : model) :
  int_cast_of sum_constraint_as_reals = Cryptarithmetic.sum_constraint
  /\ holds m sum_constraint_as_reals = holds m Cryptarithmetic.sum_constraint.
Proof. split; reflexivity. Qed.



(** ** Loops that only add, and constants a constraint does not mention *)

Lemma fold_left_appends {A} (g : Solver -> A -> Solver)
      (f : A -> list BoolRef) :
  (forall s x, g s x = s ++ f x) ->
  forall l s, fold_left g l s = s ++ flat_map f l.
Proof.
  intros Hg l. induction l as [|x l IH]; intros s; cbn [fold_left flat_map].
  - now rewrite app_nil_r.
  - rewrite IH, Hg. now rewrite app_assoc.
Qed.

Lemma eval_update (m : model) (x : string) (v : Z) :
  forall e, ~ In x (consts e) -> eval (update m x v) e = eval m e
with holds_update (m : model) (x : string) (v : Z) :
  forall c, ~ In x (consts_of c) -> holds (update m x v) c = holds m c.
Proof.
  - intros e. destruct e; cbn [consts eval]; intros Hx;
      try rewrite !in_app_iff in Hx;
      rewrite ?eval_update, ?holds_update by tauto; trivial.
    unfold update. destruct (String.eqb_spec x name); trivial.
    exfalso. apply Hx. now left.
  - intros c. destruct c; cbn [consts_of holds]; intros Hx;
      try rewrite !in_app_iff in Hx;
      rewrite ?eval_update by tauto; trivial.
    f_equal. induction args as [|a args IH]; cbn [map]; trivial.
    cbn [flat_map] in Hx. rewrite in_app_iff in Hx.
    rewrite eval_update, IH by tauto. reflexivity.
Qed.

Lemma mentions_false (x : string) (c : BoolRef) :
  mentions x c = false -> ~ In x (consts_of c).
Proof.
  unfold mentions. intros Hm Hin.
  apply not_true_iff_false in Hm. apply Hm.
  apply existsb_exists. exists x. split; trivial. apply String.eqb_refl.
Qed.

(** Changing a constant keeps every assertion that does not mention it. *)
Lemma satisfies_update (m : model) (x : string) (v : Z) (s : Solver) :
  satisfies m s = true ->
  satisfies (update m x v) (filter (mentions x) s) = true ->
  satisfies (update m x v) s = true.
Proof.
  unfold satisfies. rewrite !forallb_forall. intros Hs Hx c Hc.
  destruct (mentions x c) eqn:E.
  - apply Hx. apply filter_In. now split.
  - rewrite holds_update by now apply mentions_false. now apply Hs.
Qed.

(** ** II. Map coloring *)

Lemma mc_solver_assertions :
  MapColoring.mc_solver
  = MapColoring.cell_declare new_solver
    ++ flat_map (fun entry => map (Ne (fst entry)) (snd entry))
         MapColoring.adjacent.
Proof.
  unfold MapColoring.mc_solver, MapColoring.cell_adjacent.
  apply fold_left_appends. intros s [rT ns]. cbn [fst snd].
  rewrite (fold_left_add (fun rT2 => [Ne rT rT2])).
  reflexivity.
Qed.

(** C7. Every model of [mc_solver] gives each of the seven regions a color
    in 0..2, and gives different colors to a region and to each region the
    adjacency map lists for it. *)
Theorem mc_models_color_map (m : model) :
  satisfies m MapColoring.mc_solver = true ->
  Forall (fun x => 0 <= m x <= 2) MapColoring.regions
  /\ forall x ns y,
       In (Int x, ns) MapColoring.adjacent -> In (Int y) ns -> m x <> m y.
Proof.
  intros H. split.
  - apply Forall_forall. intros x Hx. split.
    + apply holds_lower. apply (satisfies_In m _ _ H).
      cbn in Hx. repeat destruct Hx as [<- | Hx]; try contradiction; in_solver.
    + apply holds_upper. apply (satisfies_In m _ _ H).
      cbn in Hx. repeat destruct Hx as [<- | Hx]; try contradiction; in_solver.
  - intros x ns y Hx Hy. apply holds_Ne_Int. apply (satisfies_In m _ _ H).
    rewrite mc_solver_assertions. apply in_or_app. right.
    apply in_flat_map. exists (Int x, ns). split; trivial.
    cbn [fst snd]. now apply in_map.
Qed.

Lemma mc_models_color_map_witness :
  satisfies MapColoring.printed_model MapColoring.mc_solver = true
  /\ Forall (fun x => 0 <= MapColoring.printed_model x <= 2)
       MapColoring.regions
  /\ forall x ns y,
       In (Int x, ns) MapColoring.adjacent -> In (Int y) ns ->
       MapColoring.printed_model x <> MapColoring.printed_model y.
Proof.
  split.
  - reflexivity.
  - apply (mc_models_color_map MapColoring.printed_model). reflexivity.
Defined.

(** C9. The only assertions that mention T are its two bounds; so, for every
    color [c] in 0..2, setting T to [c] in a model gives a model, whatever
    the other six regions have (they keep their colors), and the constraint
    set has a model with T = [c]. *)
Theorem tasmania_is_free (c : Z) :
  0 <= c <= 2 ->
  filter (mentions "T") MapColoring.mc_solver = bounds 0 2 MapColoring.T
  /\ (forall m,
        satisfies m MapColoring.mc_solver = true ->
        satisfies (update m "T" c) MapColoring.mc_solver = true
        /\ update m "T" c "T" = c
        /\ Forall (fun x => update m "T" c x = m x)
             ["WA"; "SA"; "NT"; "Q"; "NSW"; "V"])
  /\ exists m, satisfies m MapColoring.mc_solver = true /\ m "T" = c.
Proof.
  intros Hc.
  assert (Hf : filter (mentions "T") MapColoring.mc_solver
               = bounds 0 2 MapColoring.T) by reflexivity.
  assert (Hu : forall m, satisfies m MapColoring.mc_solver = true ->
                         satisfies (update m "T" c) MapColoring.mc_solver = true).
  { intros m Hm. apply satisfies_update; trivial. rewrite Hf.
    unfold bounds, MapColoring.T, satisfies. cbn [forallb].
    rewrite !andb_true_iff. repeat split.
    - apply holds_lower. cbn. lia.
    - apply holds_upper. cbn. lia. }
  split; [exact Hf | split].
  - intros m Hm. split; [now apply Hu | split; [reflexivity |]].
    repeat constructor.
  - exists (update MapColoring.printed_model "T" c). split.
    + apply Hu. reflexivity.
    + reflexivity.
Qed.

Lemma tasmania_is_free_witness :
  0 <= 1 <= 2
  /\ exists m, satisfies m MapColoring.mc_solver = true /\ m "T" = 1.
Proof.
  split.
  - lia.
  - apply (tasmania_is_free 1). lia.
Defined.

(** ** III. N-queens *)

Lemma enumerate_map_seq {A} (f : nat -> A) (n : nat) :
  enumerate (map f (seq 0 n)) = map (fun i => (i, f i)) (seq 0 n).
Proof.
  unfold enumerate. rewrite length_map, length_seq.
  generalize 0%nat. induction n as [|n IH]; intros a; cbn; trivial.
  now rewrite IH.
Qed.

Lemma queens_names (N : nat) :
  NQueens.queens N = map Int (map NQueens.queen_name (seq 0 N)).
Proof.
  unfold NQueens.queens. now rewrite map_map.
Qed.

Lemma nqueens_assertions (N : nat) :
  NQueens.nqueens N
  = (flat_map (bounds 0 9) (NQueens.queens N)
     ++ [Distinct (NQueens.queens N)])
    ++ flat_map
         (fun iq1 =>
            flat_map
              (fun jq2 =>
                 if Nat.eqb (fst iq1) (fst jq2) then []
                 else [NQueens.diagonal (fst iq1) (snd iq1) (fst jq2) (snd jq2)])
              (enumerate (NQueens.queens N)))
         (enumerate (NQueens.queens N)).
Proof.
  unfold NQueens.nqueens. cbv zeta.
  apply fold_left_appends. intros s iq1.
  apply fold_left_appends. intros s' jq2.
  destruct (Nat.eqb (fst iq1) (fst jq2)); [now rewrite app_nil_r | reflexivity].
Qed.

Lemma diagonal_In (N i j : nat) :
  (i < N)%nat -> (j < N)%nat -> i <> j ->
  In (NQueens.diagonal i (Int (NQueens.queen_name i))
                       j (Int (NQueens.queen_name j)))
     (NQueens.nqueens N).
Proof.
  intros Hi Hj Hij. rewrite nqueens_assertions. apply in_or_app. right.
  unfold NQueens.queens. rewrite enumerate_map_seq.
  apply in_flat_map. exists (i, Int (NQueens.queen_name i)). split.
  - apply in_map_iff. exists i. split; trivial. apply in_seq. lia.
  - apply in_flat_map. exists (j, Int (NQueens.queen_name j)). split.
    + apply in_map_iff. exists j. split; trivial. apply in_seq. lia.
    + cbn [fst snd]. destruct (Nat.eqb_spec i j); [contradiction | now left].
Qed.

Lemma eval_Abs_Sub (m : model) (x y : string) :
  (eval m (NQueens.Abs (Sub (Int x) (Int y)))
   == inject_Z (Z.abs (m x - m y)))%Q.
Proof.
  unfold NQueens.Abs. cbn [eval holds]. unfold Qminus.
  rewrite <- !inject_Z_opp, <- !inject_Z_plus.
  change (m x + - m y) with (m x - m y).
  destruct (Qle_bool (inject_Z 0) (inject_Z (m x - m y))) eqn:E.
  - apply Qle_bool_inject in E. now rewrite Z.abs_eq.
  - apply not_true_iff_false in E. rewrite Qle_bool_inject in E.
    rewrite <- inject_Z_opp, Z.abs_neq by lia. reflexivity.
Qed.

Lemma holds_diagonal (m : model) (i j : nat) (x y : string) :
  holds m (NQueens.diagonal i (Int x) j (Int y)) = true
  <-> Z.abs (m x - m y) <> Z.abs (Z.of_nat i - Z.of_nat j).
Proof.
  unfold NQueens.diagonal. cbn [holds].
  rewrite negb_true_iff, <- not_true_iff_false, Qeq_bool_iff.
  change (eval m (IntVal (Z.abs (Z.of_nat i - Z.of_nat j))))
    with (inject_Z (Z.abs (Z.of_nat i - Z.of_nat j))).
  rewrite eval_Abs_Sub, inject_Z_injective. reflexivity.
Qed.

(** What every model of [nqueens N] gives the queens. *)
Lemma nqueens_models (N : nat) (m : model) :
  satisfies m (NQueens.nqueens N) = true ->
  NoDup (map (queen_row m) (seq 0 N))
  /\ Forall (fun v => 0 <= v <= 9) (map (queen_row m) (seq 0 N)).
Proof.
  intros H. split.
  - assert (Hd : holds m (Distinct (NQueens.queens N)) = true).
    { apply (satisfies_In m _ _ H). rewrite nqueens_assertions.
      apply in_or_app. left. apply in_or_app. right. now left. }
    rewrite queens_names, holds_Distinct_Int, map_map in Hd. exact Hd.
  - apply Forall_forall. intros v Hv.
    apply in_map_iff in Hv as (i & <- & Hi).
    assert (Hq : In (Int (NQueens.queen_name i)) (NQueens.queens N)).
    { rewrite queens_names. apply in_map. now apply in_map. }
    destruct (bounds_In 0 9 _ _ Hq) as [Hlo Hhi].
    split.
    + apply holds_lower. apply (satisfies_In m _ _ H).
      rewrite nqueens_assertions. apply in_or_app. left.
      apply in_or_app. now left.
    + apply holds_upper. apply (satisfies_In m _ _ H).
      rewrite nqueens_assertions. apply in_or_app. left.
      apply in_or_app. now left.
Qed.

Lemma nqueens_models_non_attacking (N : nat) (m : model) :
  satisfies m (NQueens.nqueens N) = true -> non_attacking N m.
Proof.
  intros H i j Hi Hj Hij. split.
  - destruct (nqueens_models N m H) as [Hd _].
    intros Heq. apply Hij.
    apply (proj1 (NoDup_nth (map (queen_row m) (seq 0 N))
                            (queen_row m 0)) Hd);
      rewrite ?length_map, ?length_seq; trivial.
    rewrite !(map_nth (queen_row m) (seq 0 N) 0%nat), !seq_nth by trivial.
    exact Heq.
  - apply (holds_diagonal m i j). apply (satisfies_In m _ _ H).
    now apply diagonal_In.
Qed.

(** Ten digits cannot be given to more than ten queens without a repeat. *)
Lemma pigeonhole_digits (l : list Z) :
  NoDup l -> Forall (fun v => 0 <= v <= 9) l -> (List.length l <= 10)%nat.
Proof.
  intros Hd Hb.
  change 10%nat with (List.length (map Z.of_nat (seq 0 10))).
  apply NoDup_incl_length; trivial.
  intros v Hv. rewrite Forall_forall in Hb. specialize (Hb v Hv).
  apply in_map_iff. exists (Z.to_nat v). split; [lia |].
  apply in_seq. lia.
Qed.

Lemma nqueens_too_many (N : nat) :
  (10 < N)%nat -> unsatisfiable (NQueens.nqueens N).
Proof.
  intros HN m. destruct (satisfies m (NQueens.nqueens N)) eqn:E; trivial.
  destruct (nqueens_models N m E) as [Hd Hb].
  pose proof (pigeonhole_digits _ Hd Hb) as Hl.
  rewrite length_map, length_seq in Hl. lia.
Qed.

(** C3. For every N > 10, [nqueens N] asserts [Distinct] on its N queens and
    the bounds 0 and 9 on each of them, and no model satisfies it. *)
Theorem nqueens_unsatisfiable_above_10 (N : nat) :
  (10 < N)%nat ->
  List.length (NQueens.queens N) = N
  /\ In (Distinct (NQueens.queens N)) (NQueens.nqueens N)
  /\ incl (flat_map (bounds 0 9) (NQueens.queens N)) (NQueens.nqueens N)
  /\ unsatisfiable (NQueens.nqueens N).
Proof.
  intros HN. repeat split.
  - unfold NQueens.queens. now rewrite length_map, length_seq.
  - rewrite nqueens_assertions. apply in_or_app. left.
    apply in_or_app. right. now left.
  - intros c Hc. rewrite nqueens_assertions. apply in_or_app. left.
    apply in_or_app. now left.
  - now apply nqueens_too_many.
Qed.

Lemma nqueens_unsatisfiable_above_10_witness :
  (10 < 11)%nat
  /\ List.length (NQueens.queens 11) = 11%nat
  /\ In (Distinct (NQueens.queens 11)) (NQueens.nqueens 11)
  /\ incl (flat_map (bounds 0 9) (NQueens.queens 11)) (NQueens.nqueens 11)
  /\ unsatisfiable (NQueens.nqueens 11).
Proof.
  split.
  - lia.
  - apply (nqueens_unsatisfiable_above_10 11). lia.
Defined.

(** A sound decision procedure cannot answer [sat] on the larger sizes. *)
Lemma sound_oracle_above_10 (check : oracle) (N : nat) :
  sound check -> (10 < N)%nat -> check (NQueens.nqueens N) <> sat.
Proof.
  intros Hs HN E. destruct (Hs _ E) as [m Hm].
  rewrite (nqueens_too_many N HN m) in Hm. discriminate.
Qed.

(** C2, on the code. Of the benchmark sizes, only 8 gives a satisfiable
    solver: [nqueens 16], [nqueens 32] and [nqueens 64] have no model. *)
Theorem benchmark_sizes_satisfiability :
  NQueens.sizes = [8; 16; 32; 64]%nat
  /\ satisfiable (NQueens.nqueens 8)
  /\ unsatisfiable (NQueens.nqueens 16)
  /\ unsatisfiable (NQueens.nqueens 32)
  /\ unsatisfiable (NQueens.nqueens 64).
Proof.
  split; [reflexivity | split]; [| repeat split; apply nqueens_too_many; lia].
  exists NQueens.eight_queens. vm_compute. reflexivity.
Qed.

Lemma benchmark_loop (check : oracle) (sizes : list nat) :
  forall solutions,
    fold_left
      (fun acc N =>
         bind acc (fun solutions =>
         let nq_solver := NQueens.nqueens N in
         bind (assert (PyCheckSatResult (check nq_solver))
                 "Uh oh...The solver failed to find a solution. Check your constraints.")
              (fun _ => Ok (solutions ++ [nq_solver]))))
      sizes (Ok solutions)
    = Ok (solutions ++ map NQueens.nqueens sizes).
Proof.
  induction sizes as [|N sizes IH]; intros solutions; cbn [fold_left map].
  - now rewrite app_nil_r.
  - cbn [bind assert truth]. rewrite IH, <- app_assoc. reflexivity.
Qed.

Lemma benchmark_returns (check : oracle) (sizes : list nat) :
  NQueens.benchmark check sizes = Ok (map NQueens.nqueens sizes).
Proof.
  apply (benchmark_loop check sizes []).
Qed.

(** C1, on the code. The N-queens loop asserts on the value of [check()]
    itself: it returns its solvers whatever the oracle answers, also on
    [nqueens 16], which has no model; the three other sections raise exactly
    when the answer is not [sat]. *)
Theorem nqueens_assert_accepts_any_result :
  (forall check, NQueens.section check = Ok (map NQueens.nqueens NQueens.sizes))
  /\ In 16%nat NQueens.sizes
  /\ unsatisfiable (NQueens.nqueens 16)
  /\ raises (asserting_cell (n_queens 16) (fun _ => unsat)) = false
  /\ (forall check,
        raises (Cryptarithmetic.section check)
        = negb (CheckSatResult_eqb (check Cryptarithmetic.ca_solver) sat))
  /\ (forall check,
        raises (MapColoring.section check)
        = negb (CheckSatResult_eqb (check MapColoring.mc_solver) sat))
  /\ (forall check,
        raises (Sudoku.section check)
        = negb (CheckSatResult_eqb (check Sudoku.s_solver) sat)).
Proof.
  split; [intros check; apply benchmark_returns |].
  split; [cbn; tauto |].
  split; [apply nqueens_too_many; lia |].
  split; [reflexivity |].
  repeat split; intros check.
  - unfold Cryptarithmetic.section, Cryptarithmetic.cell_check, assert, eq_sat.
    cbn [truth]. now destruct (check Cryptarithmetic.ca_solver).
  - unfold MapColoring.section, MapColoring.cell_check, assert, eq_sat.
    cbn [truth]. now destruct (check MapColoring.mc_solver).
  - unfold Sudoku.section, Sudoku.cell_check, assert, eq_sat.
    cbn [truth]. now destruct (check Sudoku.s_solver).
Qed.

(** ** IV. Sudoku *)

Ltac below9 r :=
  destruct r as [|[|[|[|[|[|[|[|[|r]]]]]]]]]; [.. | exfalso; lia].

Lemma NoDup_map_seq {A} (f : nat -> A) (n i j : nat) :
  NoDup (map f (seq 0 n)) -> (i < n)%nat -> (j < n)%nat -> i <> j ->
  f i <> f j.
Proof.
  intros Hd Hi Hj Hij Heq. apply Hij.
  apply (proj1 (NoDup_nth (map f (seq 0 n)) (f 0%nat)) Hd);
    rewrite ?length_map, ?length_seq; trivial.
  rewrite !(map_nth f (seq 0 n) 0%nat), !seq_nth by trivial. exact Heq.
Qed.

Lemma holds_Distinct_seq (m : model) (g : nat -> string) (n : nat) :
  holds m (Distinct (map Int (map g (seq 0 n)))) = true ->
  NoDup (map (fun k => m (g k)) (seq 0 n)).
Proof.
  rewrite holds_Distinct_Int, map_map. trivial.
Qed.

(** The assertions of [s_solver], cell by cell. *)
Lemma cell_hints_appends (s : Solver) :
  Sudoku.cell_hints s
  = s ++ flat_map
           (fun row =>
              flat_map
                (fun column =>
                   if negb (Sudoku.board_at row column =? 0)
                   then [Sudoku.hint row column] else [])
                (seq 0 9))
           (seq 0 9).
Proof.
  unfold Sudoku.cell_hints.
  apply fold_left_appends. intros s1 row.
  apply fold_left_appends. intros s2 column.
  destruct (negb (Sudoku.board_at row column =? 0));
    [reflexivity | now rewrite app_nil_r].
Qed.

Lemma cell_general_appends (s : Solver) :
  Sudoku.cell_general s
  = (((s ++ flat_map (bounds 1 9) (List.concat Sudoku.boxes))
      ++ map Distinct Sudoku.boxes)
     ++ map Distinct (zip_star Sudoku.boxes))
    ++ flat_map
         (fun a => map (fun b => Distinct (Sudoku.block a b)) [0; 3; 6]%nat)
         [0; 3; 6]%nat.
Proof.
  unfold Sudoku.cell_general. cbv zeta.
  apply fold_left_appends. intros s1 a.
  apply (fold_left_add (fun b => [Distinct (Sudoku.block a b)])).
Qed.

Lemma s_solver_assertions (c : BoolRef) :
  In c Sudoku.s_solver
  <-> In c (flat_map (bounds 1 9) (List.concat Sudoku.boxes))
      \/ In c (map Distinct Sudoku.boxes)
      \/ In c (map Distinct (zip_star Sudoku.boxes))
      \/ In c (flat_map
                 (fun a =>
                    map (fun b => Distinct (Sudoku.block a b)) [0; 3; 6]%nat)
                 [0; 3; 6]%nat)
      \/ In c (flat_map
                 (fun row =>
                    flat_map
                      (fun column =>
                         if negb (Sudoku.board_at row column =? 0)
                         then [Sudoku.hint row column] else [])
                      (seq 0 9))
                 (seq 0 9)).
Proof.
  unfold Sudoku.s_solver.
  rewrite cell_hints_appends, cell_general_appends.
  unfold new_solver. rewrite app_nil_l, !in_app_iff. tauto.
Qed.

Lemma sudoku_row_asserted (r : nat) :
  (r < 9)%nat ->
  In (Distinct (map Int (map (Sudoku.name_at r) (seq 0 9)))) Sudoku.s_solver.
Proof.
  intros Hr. apply s_solver_assertions. right. left. apply in_map.
  replace (map Int (map (Sudoku.name_at r) (seq 0 9)))
    with (nth r Sudoku.boxes []) by (below9 r; reflexivity).
  apply nth_In. exact Hr.
Qed.

Lemma sudoku_column_asserted (c : nat) :
  (c < 9)%nat ->
  In (Distinct (map Int (map (fun r => Sudoku.name_at r c) (seq 0 9))))
     Sudoku.s_solver.
Proof.
  intros Hc. apply s_solver_assertions. right. right. left. apply in_map.
  replace (map Int (map (fun r => Sudoku.name_at r c) (seq 0 9)))
    with (nth c (zip_star Sudoku.boxes) []) by (below9 c; reflexivity).
  apply nth_In. exact Hc.
Qed.

Lemma sudoku_block_asserted (a b : nat) :
  (a < 3)%nat -> (b < 3)%nat ->
  In (Distinct
        (map Int
           (map (fun k => Sudoku.name_at (3 * a + k / 3) (3 * b + k mod 3))
                (seq 0 9))))
     Sudoku.s_solver.
Proof.
  intros Ha Hb. apply s_solver_assertions. do 3 right. left.
  apply in_flat_map. exists (3 * a)%nat. split.
  - destruct a as [|[|[|a]]]; [.. | exfalso; lia]; cbn; tauto.
  - apply in_map_iff. exists (3 * b)%nat. split.
    + destruct a as [|[|[|a]]]; [.. | exfalso; lia];
        (destruct b as [|[|[|b]]]; [.. | exfalso; lia]); reflexivity.
    + destruct b as [|[|[|b]]]; [.. | exfalso; lia]; cbn; tauto.
Qed.

Lemma sudoku_bounds_asserted (r c : nat) :
  (r < 9)%nat -> (c < 9)%nat ->
  In (Ge (Int (Sudoku.name_at r c)) (IntVal 1)) Sudoku.s_solver
  /\ In (Le (Int (Sudoku.name_at r c)) (IntVal 9)) Sudoku.s_solver.
Proof.
  intros Hr Hc.
  assert (Hb : In (Int (Sudoku.name_at r c)) (List.concat Sudoku.boxes)).
  { apply in_concat. exists (nth r Sudoku.boxes []). split.
    - now apply nth_In.
    - replace (Int (Sudoku.name_at r c))
        with (nth c (nth r Sudoku.boxes []) (IntVal 0))
        by (below9 r; below9 c; reflexivity).
      apply nth_In. below9 r; exact Hc. }
  destruct (bounds_In 1 9 _ _ Hb).
  split; apply s_solver_assertions; now left.
Qed.

Lemma box_at_name (r c : nat) :
  (r < 9)%nat -> (c < 9)%nat ->
  Sudoku.box_at r c = Int (Sudoku.name_at r c).
Proof.
  intros Hr Hc. below9 r; below9 c; reflexivity.
Qed.

Lemma block_position (r c : nat) :
  (3 * (r / 3) + (3 * (r mod 3) + c mod 3) / 3 = r
   /\ 3 * (c / 3) + (3 * (r mod 3) + c mod 3) mod 3 = c)%nat.
Proof.
  pose proof (Nat.div_mod_eq r 3) as Hr.
  pose proof (Nat.div_mod_eq c 3) as Hc.
  pose proof (Nat.mod_upper_bound r 3) as Hr'.
  pose proof (Nat.mod_upper_bound c 3) as Hc'.
  rewrite (Nat.add_comm (3 * (r mod 3))), (Nat.mul_comm 3 (r mod 3)).
  rewrite Nat.div_add, Nat.Div0.mod_add by lia.
  rewrite (Nat.div_small (c mod 3) 3), (Nat.mod_small (c mod 3) 3) by lia.
  lia.
Qed.

(** C5. Every model of [s_solver] gives each of the 81 boxes a value in
    1..9, different values to two boxes of a row, to two boxes of a column
    and to two boxes of a 3x3 block. *)
Theorem sudoku_models_are_grids (m : model) :
  satisfies m Sudoku.s_solver = true ->
  List.length (declared sudoku) = 81%nat
  /\ (forall r c, (r < 9)%nat -> (c < 9)%nat -> 1 <= value_at m r c <= 9)
  /\ (forall r c1 c2, (r < 9)%nat -> (c1 < 9)%nat -> (c2 < 9)%nat ->
        c1 <> c2 -> value_at m r c1 <> value_at m r c2)
  /\ (forall c r1 r2, (c < 9)%nat -> (r1 < 9)%nat -> (r2 < 9)%nat ->
        r1 <> r2 -> value_at m r1 c <> value_at m r2 c)
  /\ (forall r1 c1 r2 c2,
        (r1 < 9)%nat -> (c1 < 9)%nat -> (r2 < 9)%nat -> (c2 < 9)%nat ->
        (r1 / 3 = r2 / 3)%nat -> (c1 / 3 = c2 / 3)%nat ->
        r1 <> r2 \/ c1 <> c2 ->
        value_at m r1 c1 <> value_at m r2 c2).
Proof.
  intros H. split; [reflexivity |]. split; [| split; [| split]].
  - intros r c Hr Hc. destruct (sudoku_bounds_asserted r c Hr Hc) as [Hlo Hhi].
    split.
    + apply holds_lower. now apply (satisfies_In m _ _ H).
    + apply holds_upper. now apply (satisfies_In m _ _ H).
  - intros r c1 c2 Hr Hc1 Hc2 Hne.
    pose proof (satisfies_In m _ _ H (sudoku_row_asserted r Hr)) as Hd.
    apply holds_Distinct_seq in Hd.
    exact (NoDup_map_seq _ 9 c1 c2 Hd Hc1 Hc2 Hne).
  - intros c r1 r2 Hc Hr1 Hr2 Hne.
    pose proof (satisfies_In m _ _ H (sudoku_column_asserted c Hc)) as Hd.
    apply holds_Distinct_seq in Hd.
    exact (NoDup_map_seq _ 9 r1 r2 Hd Hr1 Hr2 Hne).
  - intros r1 c1 r2 c2 Hr1 Hc1 Hr2 Hc2 Hr Hc Hne.
    assert (Ha : (r1 / 3 < 3)%nat) by (apply Nat.Div0.div_lt_upper_bound; lia).
    assert (Hb : (c1 / 3 < 3)%nat) by (apply Nat.Div0.div_lt_upper_bound; lia).
    pose proof (satisfies_In m _ _ H (sudoku_block_asserted _ _ Ha Hb)) as Hd.
    apply holds_Distinct_seq in Hd.
    pose proof (Nat.mod_upper_bound r1 3) as M1.
    pose proof (Nat.mod_upper_bound c1 3) as M2.
    pose proof (Nat.mod_upper_bound r2 3) as M3.
    pose proof (Nat.mod_upper_bound c2 3) as M4.
    pose proof (Nat.div_mod_eq r1 3) as E1.
    pose proof (Nat.div_mod_eq c1 3) as E2.
    pose proof (Nat.div_mod_eq r2 3) as E3.
    pose proof (Nat.div_mod_eq c2 3) as E4.
    assert (Hk : (3 * (r1 mod 3) + c1 mod 3 <> 3 * (r2 mod 3) + c2 mod 3)%nat)
      by lia.
    assert (B1 : (3 * (r1 mod 3) + c1 mod 3 < 9)%nat) by lia.
    assert (B2 : (3 * (r2 mod 3) + c2 mod 3 < 9)%nat) by lia.
    pose proof (NoDup_map_seq _ 9 _ _ Hd B1 B2 Hk) as Hv.
    cbv beta in Hv.
    destruct (block_position r1 c1) as [P1 P2].
    destruct (block_position r2 c2) as [P3 P4].
    rewrite P1, P2 in Hv. rewrite Hr, Hc, P3, P4 in Hv. exact Hv.
Qed.

Lemma sudoku_models_are_grids_witness :
  satisfies Sudoku.printed_model Sudoku.s_solver = true
  /\ 1 <= value_at Sudoku.printed_model 4 4 <= 9.
Proof.
  split.
  - vm_compute. reflexivity.
  - apply (sudoku_models_are_grids Sudoku.printed_model).
    + vm_compute. reflexivity.
    + lia.
    + lia.
Defined.

Lemma name_at_injective (r c r' c' : nat) :
  (r < 9)%nat -> (c < 9)%nat -> (r' < 9)%nat -> (c' < 9)%nat ->
  Sudoku.name_at r c = Sudoku.name_at r' c' -> r = r' /\ c = c'.
Proof.
  intros Hr Hc Hr' Hc' E. unfold Sudoku.name_at, Sudoku.box_name in E.
  injection E as Er Ec.
  assert (Nr : NoDup (list_ascii_of_string Sudoku.rows))
    by (cbn; repeat (constructor; [cbn; intuition discriminate |]);
        constructor).
  assert (Nc : NoDup (list_ascii_of_string Sudoku.cols))
    by (cbn; repeat (constructor; [cbn; intuition discriminate |]);
        constructor).
  split.
  - apply (proj1 (NoDup_nth _ "?"%char) Nr); trivial.
  - apply (proj1 (NoDup_nth _ "?"%char) Nc); trivial.
Qed.

Lemma Int_injective (x y : string) : Int x = Int y -> x = y.
Proof. intros E. injection E. trivial. Qed.

Lemma Eq_left (a b c d : ArithRef) : Eq a b = Eq c d -> a = c.
Proof. intros E. injection E. trivial. Qed.

Lemma hints_characterised (k : BoolRef) :
  In k (flat_map
          (fun row =>
             flat_map
               (fun column =>
                  if negb (Sudoku.board_at row column =? 0)
                  then [Sudoku.hint row column] else [])
               (seq 0 9))
          (seq 0 9))
  <-> exists row column,
        (row < 9)%nat /\ (column < 9)%nat
        /\ Sudoku.board_at row column <> 0 /\ k = Sudoku.hint row column.
Proof.
  rewrite in_flat_map. split.
  - intros (row & Hrow & Hk). apply in_flat_map in Hk as (column & Hcol & Hk).
    apply in_seq in Hrow, Hcol.
    destruct (Z.eqb_spec (Sudoku.board_at row column) 0) as [E | E];
      cbn [negb] in Hk; [contradiction |].
    destruct Hk as [<- | []]. exists row, column. repeat split; trivial; lia.
  - intros (row & column & Hrow & Hcol & Hb & ->).
    exists row. split; [apply in_seq; lia |].
    apply in_flat_map. exists column. split; [apply in_seq; lia |].
    destruct (Z.eqb_spec (Sudoku.board_at row column) 0) as [E | E];
      [contradiction | now left].
Qed.

(** C6. The board is 9 x 9; cell 30 appends to the solver exactly the
    constraints [boxes[i][j] == board[i][j]] of the cells with a non-zero
    entry, so a cell with entry 0 gets no equality on its box; and every
    model of [s_solver] agrees with every non-zero entry. *)
Theorem sudoku_hints_follow_board :
  List.length Sudoku.board = 9%nat
  /\ Forall (fun row => List.length row = 9%nat) Sudoku.board
  /\ (exists hints,
        (forall s, Sudoku.cell_hints s = s ++ hints)
        /\ (forall k,
              In k hints
              <-> exists row column,
                    (row < 9)%nat /\ (column < 9)%nat
                    /\ Sudoku.board_at row column <> 0
                    /\ k = Sudoku.hint row column)
        /\ (forall row column v,
              (row < 9)%nat -> (column < 9)%nat ->
              Sudoku.board_at row column = 0 ->
              ~ In (Eq (Sudoku.box_at row column) v) hints))
  /\ (forall m row column,
        satisfies m Sudoku.s_solver = true ->
        (row < 9)%nat -> (column < 9)%nat ->
        Sudoku.board_at row column <> 0 ->
        value_at m row column = Sudoku.board_at row column).
Proof.
  split; [reflexivity |]. split; [repeat constructor |]. split.
  - eexists. split; [intros s; apply cell_hints_appends |].
    split; [apply hints_characterised |].
    intros row column v Hrow Hcol Hz Hin.
    apply hints_characterised in Hin
      as (row' & column' & Hrow' & Hcol' & Hnz & E).
    apply Eq_left in E. rewrite !box_at_name in E by trivial.
    apply Int_injective, name_at_injective in E as [-> ->]; trivial.
    contradiction.
  - intros m row column H Hrow Hcol Hnz.
    apply holds_Eq_IntVal. rewrite <- box_at_name by trivial.
    apply (satisfies_In m _ _ H). apply s_solver_assertions. do 4 right.
    apply hints_characterised. exists row, column. repeat split; trivial.
Qed.

Lemma sudoku_hints_follow_board_witness :
  satisfies Sudoku.printed_model Sudoku.s_solver = true
  /\ value_at Sudoku.printed_model 2 4 = 9.
Proof.
  split.
  - vm_compute. reflexivity.
  - apply (proj2 (proj2 (proj2 sudoku_hints_follow_board))
             Sudoku.printed_model 2%nat 4%nat).
    + vm_compute. reflexivity.
    + lia.
    + lia.
    + vm_compute. discriminate.
Defined.

(** ** Domains *)

(** C8. Each constant a section declares has, among the assertions its
    solver holds when [check()] is called, a lower and an upper bound, those
    of the section's interval (letters 0..9, colors 0..2, queen rows 0..9,
    boxes 1..9); so every model gives it a value of that interval.  The
    asserting cell consults the decision procedure on that assertion list
    only. *)
Theorem declared_variables_bounded (p : problem) (x : string) :
  In x (declared p) ->
  In (Ge (Int x) (IntVal (fst (domain p)))) (solver_at_check p)
  /\ In (Le (Int x) (IntVal (snd (domain p)))) (solver_at_check p)
  /\ (forall m, satisfies m (solver_at_check p) = true ->
                fst (domain p) <= m x <= snd (domain p))
  /\ (forall check1 check2,
        check1 (solver_at_check p) = check2 (solver_at_check p) ->
        asserting_cell p check1 = asserting_cell p check2).
Proof.
  intros Hx.
  assert (Hb : In (Ge (Int x) (IntVal (fst (domain p)))) (solver_at_check p)
               /\ In (Le (Int x) (IntVal (snd (domain p)))) (solver_at_check p)).
  { destruct p as [| | N |]; cbn [declared domain solver_at_check fst snd] in *.
    - cbn in Hx. repeat destruct Hx as [<- | Hx]; try contradiction;
        split; in_solver.
    - cbn in Hx. repeat destruct Hx as [<- | Hx]; try contradiction;
        split; in_solver.
    - assert (Hq : In (Int x) (NQueens.queens N))
        by (rewrite queens_names; now apply in_map).
      destruct (bounds_In 0 9 _ _ Hq).
      rewrite nqueens_assertions.
      split; apply in_or_app; left; apply in_or_app; now left.
    - apply in_flat_map in Hx as (row & Hrow & Hx).
      apply in_map_iff in Hx as (column & <- & Hcol).
      apply in_seq in Hrow, Hcol. apply sudoku_bounds_asserted; lia. }
  destruct Hb as [Hlo Hhi]. split; [exact Hlo |]. split; [exact Hhi |]. split.
  - intros m Hm. split.
    + apply holds_lower. now apply (satisfies_In m _ _ Hm).
    + apply holds_upper. now apply (satisfies_In m _ _ Hm).
  - intros check1 check2 E.
    destruct p as [| | N |]; cbn [asserting_cell solver_at_check] in *.
    + unfold Cryptarithmetic.section, Cryptarithmetic.cell_check. now rewrite E.
    + unfold MapColoring.section, MapColoring.cell_check. now rewrite E.
    + unfold NQueens.benchmark. cbn [fold_left bind]. now rewrite E.
    + unfold Sudoku.section, Sudoku.cell_check. now rewrite E.
Qed.

Lemma declared_variables_bounded_witness :
  In "Q11" (declared (n_queens 16))
  /\ In (Le (Int "Q11") (IntVal 9)) (solver_at_check (n_queens 16)).
Proof.
  split.
  - vm_compute. tauto.
  - apply (declared_variables_bounded (n_queens 16) "Q11"). vm_compute. tauto.
Defined.

(** * Further properties *)

(** ** The models of [nqueens N] *)

Lemma NoDup_map_seq_intro {A} (f : nat -> A) (n : nat) :
  (forall i j, (i < n)%nat -> (j < n)%nat -> i <> j -> f i <> f j) ->
  NoDup (map f (seq 0 n)).
Proof.
  intros Hf. apply (NoDup_nth _ (f 0%nat)).
  rewrite length_map, length_seq. intros i j Hi Hj E.
  rewrite !(map_nth f (seq 0 n) 0%nat), !seq_nth in E by trivial.
  destruct (Nat.eq_dec i j) as [|Hij]; trivial.
  exfalso. exact (Hf i j Hi Hj Hij E).
Qed.

Lemma nqueens_models_iff (N : nat) (m : model) :
  satisfies m (NQueens.nqueens N) = true
  <-> (forall i, (i < N)%nat -> 0 <= queen_row m i <= 9)
      /\ non_attacking N m.
Proof.
  split.
  - intros H. split; [| now apply nqueens_models_non_attacking].
    destruct (nqueens_models N m H) as [_ Hb].
    rewrite Forall_forall in Hb. intros i Hi. apply Hb.
    apply in_map. apply in_seq. lia.
  - intros [Hb Hn]. unfold satisfies. apply forallb_forall. intros c Hc.
    rewrite nqueens_assertions in Hc.
    apply in_app_or in Hc as [Hc | Hc]; [apply in_app_or in Hc as [Hc | Hc] |].
    + apply in_flat_map in Hc as (q & Hq & Hc).
      unfold NQueens.queens in Hq. apply in_map_iff in Hq as (i & <- & Hi).
      apply in_seq in Hi. destruct (Hb i) as [Hlo Hhi]; [lia |].
      destruct Hc as [<- | [<- | []]].
      * now apply holds_lower.
      * now apply holds_upper.
    + destruct Hc as [<- | []].
      rewrite queens_names. apply holds_Distinct_Int. rewrite map_map.
      apply (NoDup_map_seq_intro (fun i => m (NQueens.queen_name i))).
      intros i j Hi Hj Hij. now apply Hn.
    + unfold NQueens.queens in Hc. rewrite enumerate_map_seq in Hc.
      apply in_flat_map in Hc as (iq & Hiq & Hc).
      apply in_flat_map in Hc as (jq & Hjq & Hc).
      apply in_map_iff in Hiq as (i & <- & Hi).
      apply in_map_iff in Hjq as (j & <- & Hj).
      apply in_seq in Hi, Hj. cbn [fst snd] in Hc.
      destruct (Nat.eqb_spec i j) as [| Hij]; [contradiction |].
      destruct Hc as [<- | []]. apply holds_diagonal.
      apply Hn; trivial; lia.
Qed.

Lemma non_attacking_fewer (N N' : nat) (m : model) :
  (N' <= N)%nat -> non_attacking N m -> non_attacking N' m.
Proof.
  intros Hle Hn i j Hi Hj. apply Hn; lia.
Qed.

Lemma ten_queens_prefix (N : nat) :
  (N <= 10)%nat -> satisfies ten_queens (NQueens.nqueens N) = true.
Proof.
  intros HN.
  assert (H10 : satisfies ten_queens (NQueens.nqueens 10) = true)
    by (vm_compute; reflexivity).
  apply nqueens_models_iff in H10 as [Hb Hn].
  apply nqueens_models_iff. split.
  - intros i Hi. apply Hb. lia.
  - now apply (non_attacking_fewer 10).
Qed.

(** X1. For every N >= 1, the models of the solver [nqueens N] returns are
    exactly the assignments that put each of the N queens on a row in 0..9,
    no two on a row and no two on a diagonal. *)
Theorem nqueens_models_exactly (N : nat) (m : model) :
  (1 <= N)%nat ->
  (satisfies m (NQueens.nqueens N) = true
   <-> (forall i, (i < N)%nat -> 0 <= queen_row m i <= 9)
       /\ (forall i j, (i < N)%nat -> (j < N)%nat -> i <> j ->
             queen_row m i <> queen_row m j
             /\ Z.abs (queen_row m i - queen_row m j)
                <> Z.abs (Z.of_nat i - Z.of_nat j))).
Proof.
  intros _. apply nqueens_models_iff.
Qed.

Lemma nqueens_models_exactly_witness :
  (1 <= 8)%nat
  /\ (satisfies NQueens.eight_queens (NQueens.nqueens 8) = true
      <-> (forall i, (i < 8)%nat -> 0 <= queen_row NQueens.eight_queens i <= 9)
          /\ (forall i j, (i < 8)%nat -> (j < 8)%nat -> i <> j ->
                queen_row NQueens.eight_queens i
                <> queen_row NQueens.eight_queens j
                /\ Z.abs (queen_row NQueens.eight_queens i
                          - queen_row NQueens.eight_queens j)
                   <> Z.abs (Z.of_nat i - Z.of_nat j))).
Proof.
  split.
  - lia.
  - apply (nqueens_models_exactly 8 NQueens.eight_queens). lia.
Defined.

(** X2. For N >= 1, the solver [nqueens N] returns is satisfiable exactly
    when N <= 10. *)
Theorem nqueens_satisfiable_iff (N : nat) :
  (1 <= N)%nat ->
  (satisfiable (NQueens.nqueens N) <-> (N <= 10)%nat).
Proof.
  intros _. split.
  - intros [m Hm]. destruct (Nat.le_gt_cases N 10) as [| HN]; trivial.
    rewrite (nqueens_too_many N HN m) in Hm. discriminate.
  - intros HN. exists ten_queens. now apply ten_queens_prefix.
Qed.

Lemma nqueens_satisfiable_iff_witness :
  (1 <= 10)%nat
  /\ (satisfiable (NQueens.nqueens 10) <-> (10 <= 10)%nat).
Proof.
  split.
  - lia.
  - apply (nqueens_satisfiable_iff 10). lia.
Defined.

(** X3. For a board of 1 to 9 columns, [nqueens N] has a model with a queen
    on row 9, which is not a row of the N x N board. *)
Theorem nqueens_model_off_board (N : nat) :
  (1 <= N <= 9)%nat ->
  exists m, satisfies m (NQueens.nqueens N) = true
            /\ queen_row m 0 = 9
            /\ Z.of_nat N <= queen_row m 0.
Proof.
  intros HN. exists ten_queens. split; [| split].
  - apply ten_queens_prefix. lia.
  - reflexivity.
  - change (queen_row ten_queens 0) with 9. lia.
Qed.

Lemma nqueens_model_off_board_witness :
  (1 <= 8 <= 9)%nat
  /\ exists m, satisfies m (NQueens.nqueens 8) = true
               /\ queen_row m 0 = 9
               /\ Z.of_nat 8 <= queen_row m 0.
Proof.
  split.
  - lia.
  - apply (nqueens_model_off_board 8). lia.
Defined.

Lemma diagonal_count (g : nat -> BoolRef) (i a n : nat) :
  List.length
    (flat_map (fun j => if Nat.eqb i j then [] else [g j]) (seq a n))
  = (n - (if (a <=? i)%nat && (i <? a + n)%nat then 1 else 0))%nat.
Proof.
  revert a. induction n as [|n IH]; intros a; cbn [seq flat_map].
  - now rewrite Nat.sub_0_l.
  - rewrite length_app, IH.
    destruct (Nat.eqb_spec i a) as [-> | Hne]; cbn [List.length].
    + replace (S a <=? a)%nat with false by (symmetry; apply Nat.leb_gt; lia).
      rewrite Nat.leb_refl.
      replace (a <? a + S n)%nat with true by (symmetry; apply Nat.ltb_lt; lia).
      cbn. lia.
    + destruct (Nat.leb_spec (S a) i), (Nat.leb_spec a i),
        (Nat.ltb_spec i (S a + n)), (Nat.ltb_spec i (a + S n));
        cbn; lia.
Qed.

(** X4. For N >= 1, the solver [nqueens N] returns holds N * N + N + 1
    assertions: two bounds per queen, one [Distinct], and one diagonal
    constraint per ordered pair of different queens. *)
Theorem nqueens_size (N : nat) :
  (1 <= N)%nat ->
  List.length (NQueens.nqueens N) = (N * N + N + 1)%nat.
Proof.
  intros _. rewrite nqueens_assertions, !length_app.
  rewrite (@flat_map_constant_length _ _ 2%nat) by reflexivity.
  unfold NQueens.queens at 1. rewrite length_map, length_seq.
  unfold NQueens.queens. rewrite enumerate_map_seq.
  rewrite (@flat_map_constant_length _ _ (N - 1)%nat).
  - rewrite length_map, length_seq. cbn [List.length]. nia.
  - intros iq Hiq. apply in_map_iff in Hiq as (i & <- & Hi).
    apply in_seq in Hi. cbn [fst snd].
    rewrite flat_map_concat_map, map_map, <- flat_map_concat_map.
    cbn [fst snd].
    rewrite (diagonal_count
               (fun j => NQueens.diagonal i (Int (NQueens.queen_name i))
                                          j (Int (NQueens.queen_name j)))).
    replace (0 <=? i)%nat with true by (symmetry; apply Nat.leb_le; lia).
    replace (i <? 0 + N)%nat with true by (symmetry; apply Nat.ltb_lt; lia).
    reflexivity.
Qed.

Lemma nqueens_size_witness :
  (1 <= 8)%nat /\ List.length (NQueens.nqueens 8) = 73%nat.
Proof.
  split.
  - lia.
  - apply (nqueens_size 8). lia.
Defined.

(** X5. [Abs(x)] is the absolute value of [x], for every expression. *)
Theorem Abs_is_absolute_value (m : model) (x : ArithRef) :
  (eval m (NQueens.Abs x) == Qabs (eval m x))%Q.
Proof.
  unfold NQueens.Abs. cbn [eval holds].
  change (inject_Z 0) with 0%Q.
  destruct (Qle_bool 0 (eval m x)) eqn:E.
  - apply Qle_bool_iff in E. now rewrite Qabs_pos.
  - rewrite Qabs_neg; [reflexivity |].
    apply Qnot_lt_le. intros Hlt. apply Qlt_le_weak, Qle_bool_iff in Hlt.
    congruence.
Qed.

(** ** The models of [ca_solver], and what cell 10 prints *)

Lemma satisfies_Forall (m : model) (s : Solver) :
  satisfies m s = true <-> Forall (fun c => holds m c = true) s.
Proof.
  unfold satisfies. now rewrite forallb_forall, Forall_forall.
Qed.

Lemma ca_solver_models (m : model) :
  satisfies m Cryptarithmetic.ca_solver = true
  <-> Forall (fun x => 0 <= m x <= 9) Cryptarithmetic.letters
      /\ m "F" <> 0 /\ m "T" <> 0
      /\ NoDup (map m Cryptarithmetic.letters)
      /\ two_two_four m.
Proof.
  rewrite satisfies_Forall.
  change Cryptarithmetic.ca_solver
    with [Ge (Int "F") (IntVal 0); Le (Int "F") (IntVal 9);
          Ge (Int "O") (IntVal 0); Le (Int "O") (IntVal 9);
          Ge (Int "R") (IntVal 0); Le (Int "R") (IntVal 9);
          Ge (Int "T") (IntVal 0); Le (Int "T") (IntVal 9);
          Ge (Int "U") (IntVal 0); Le (Int "U") (IntVal 9);
          Ge (Int "W") (IntVal 0); Le (Int "W") (IntVal 9);
          Ne (Int "F") (IntVal 0); Ne (Int "T") (IntVal 0);
          Distinct (map Int Cryptarithmetic.letters);
          Cryptarithmetic.sum_constraint].
  unfold Cryptarithmetic.letters at 2.
  rewrite !Forall_cons_iff, !Forall_nil_iff.
  rewrite !holds_lower, !holds_upper, !holds_Ne_IntVal, holds_Distinct_Int,
    sum_constraint_integers.
  tauto.
Qed.

Lemma distinctZ_NoDup (l : list Z) : distinctZ l = true <-> NoDup l.
Proof.
  induction l as [|x l IH]; cbn [distinctZ].
  - split; [constructor | reflexivity].
  - rewrite andb_true_iff, IH, forallb_forall, NoDup_cons_iff.
    split; intros [Hx Hl]; split; trivial.
    + intros Hin. apply Hx in Hin. rewrite Z.eqb_refl in Hin. discriminate.
    + intros y Hy. apply negb_true_iff, Z.eqb_neq. congruence.
Qed.

Lemma ca_ok_models (m : model) :
  ca_ok (map m Cryptarithmetic.letters) = true
  <-> satisfies m Cryptarithmetic.ca_solver = true.
Proof.
  rewrite ca_solver_models. unfold ca_ok, two_two_four.
  cbn [map Cryptarithmetic.letters].
  rewrite !andb_true_iff, !negb_true_iff, !Z.eqb_neq, Z.eqb_eq,
    distinctZ_NoDup, forallb_forall, Forall_forall.
  split.
  - intros [[[[Hb HF] HT] Hd] He]. repeat split; trivial;
      assert (Hv : In (m x) [m "F"; m "O"; m "R"; m "T"; m "U"; m "W"])
        by (apply (in_map m Cryptarithmetic.letters x); trivial);
      apply Hb, andb_true_iff in Hv as [H1 H2]; lia.
  - intros (Hb & HF & HT & Hd & He). repeat split; trivial.
    intros v Hv.
    assert (Hv' : exists x, In x ["F"; "O"; "R"; "T"; "U"; "W"] /\ v = m x).
    { cbn in Hv. cbn. intuition eauto 10. }
    destruct Hv' as (x & Hx & ->). specialize (Hb x Hx).
    apply andb_true_iff. split; [apply Z.leb_le | apply Z.leb_le]; lia.
Qed.

Lemma digit_In (v : Z) : 0 <= v <= 9 -> In v digits.
Proof.
  intros Hv. unfold digits. cbn.
  assert (v = 0 \/ v = 1 \/ v = 2 \/ v = 3 \/ v = 4 \/ v = 5 \/ v = 6
          \/ v = 7 \/ v = 8 \/ v = 9) by lia.
  intuition auto.
Qed.

(** X6. The puzzle has seven solutions: the models of [ca_solver] are
    exactly the assignments that give F, O, R, T, U, W the digits of
    734 + 734 = 1468, 765 + 765 = 1530, 836 + 836 = 1672, 846 + 846 = 1692,
    867 + 867 = 1734, 928 + 928 = 1856 or 938 + 938 = 1876. *)
Theorem ca_models_are_seven (m : model) :
  satisfies m Cryptarithmetic.ca_solver = true
  <-> In (map m Cryptarithmetic.letters) ca_solutions.
Proof.
  split.
  - intros H.
    assert (Hok := proj2 (ca_ok_models m) H).
    apply ca_solver_models in H as (Hb & _ & _ & _ & He).
    rewrite Forall_forall in Hb. unfold two_two_four in He.
    assert (HF := Hb "F" ltac:(cbn; tauto)).
    assert (HO := Hb "O" ltac:(cbn; tauto)).
    assert (HR := Hb "R" ltac:(cbn; tauto)).
    assert (HT := Hb "T" ltac:(cbn; tauto)).
    assert (HU := Hb "U" ltac:(cbn; tauto)).
    assert (HW := Hb "W" ltac:(cbn; tauto)).
    assert (Hc : map m Cryptarithmetic.letters
                 = ca_candidate (m "T") (m "W") (m "O")).
    { unfold ca_candidate. cbn [map Cryptarithmetic.letters]. cbv zeta.
      repeat f_equal; Z.div_mod_to_equations; lia. }
    change ca_solutions
      with (filter ca_ok
              (flat_map
                 (fun t =>
                    flat_map (fun w => map (ca_candidate t w) digits) digits)
                 digits)).
    apply (proj2 (filter_In ca_ok (map m Cryptarithmetic.letters) _)).
    split; trivial. rewrite Hc.
    apply in_flat_map. exists (m "T"). split; [now apply digit_In |].
    apply in_flat_map. exists (m "W"). split; [now apply digit_In |].
    apply in_map. now apply digit_In.
  - intros H. apply ca_ok_models.
    assert (Hall : forallb ca_ok ca_solutions = true) by reflexivity.
    rewrite forallb_forall in Hall. now apply Hall.
Qed.

Lemma as_string_digit (v : Z) :
  0 <= v <= 9 -> as_string v = String (digit_char v) EmptyString.
Proof.
  intros Hv.
  assert (H : v = 0 \/ v = 1 \/ v = 2 \/ v = 3 \/ v = 4 \/ v = 5 \/ v = 6
              \/ v = 7 \/ v = 8 \/ v = 9) by lia.
  repeat destruct H as [-> | H]; try subst v; reflexivity.
Qed.

(** X7. When [check()] answers [sat] and the solver holds a model, cell 10
    ends normally and prints four lines of nineteen characters, the digits
    of T, W, O under each other and above those of O, U, R; with another
    answer it prints nothing and the assertion is uncaught. *)
Theorem cell10_prints_aligned (check : oracle) (found : model) :
  satisfies found Cryptarithmetic.ca_solver = true ->
  (check Cryptarithmetic.ca_solver = sat ->
   let d := fun x => String (digit_char (found x)) EmptyString in
   CryptarithmeticOutput.cell check found
   = (("  T W O  :    " ++ d "T" ++ " " ++ d "W" ++ " " ++ d "O" ++ newline
       ++ "+ T W O  :  + " ++ d "T" ++ " " ++ d "W" ++ " " ++ d "O" ++ newline
       ++ "-------  :  -------" ++ newline
       ++ "F O U R  :  " ++ d "F" ++ " " ++ d "O" ++ " " ++ d "U" ++ " "
       ++ d "R" ++ newline)%string,
      None))
  /\ (check Cryptarithmetic.ca_solver <> sat ->
      CryptarithmeticOutput.cell check found
      = (EmptyString,
         Some (Uncaught
                 (AssertionError
                    "Uh oh...the solver did not find a solution. Check your constraints.")))).
Proof.
  intros H. split.
  - intros Hc d.
    apply ca_solver_models in H as (Hb & _). rewrite Forall_forall in Hb.
    assert (E : forall x, In x Cryptarithmetic.letters ->
                          as_string (found x) = d x)
      by (intros x Hx; apply as_string_digit; now apply Hb).
    unfold CryptarithmeticOutput.cell, Cryptarithmetic.cell_check, eq_sat.
    rewrite Hc.
    unfold CryptarithmeticOutput.print_format, CryptarithmeticOutput.format,
      Cryptarithmetic.T, Cryptarithmetic.W, Cryptarithmetic.O,
      Cryptarithmetic.F, Cryptarithmetic.U, Cryptarithmetic.R, getitem.
    rewrite !E by (cbn; tauto). reflexivity.
  - intros Hc.
    unfold CryptarithmeticOutput.cell, Cryptarithmetic.cell_check, eq_sat.
    destruct (check Cryptarithmetic.ca_solver); [contradiction | |];
      reflexivity.
Qed.

Lemma cell10_prints_aligned_witness :
  satisfies Cryptarithmetic.printed_model Cryptarithmetic.ca_solver = true
  /\ String.length
       (fst (CryptarithmeticOutput.cell (fun _ => sat)
               Cryptarithmetic.printed_model))
     = 80%nat.
Proof.
  split.
  - reflexivity.
  - rewrite (proj1 (cell10_prints_aligned (fun _ => sat)
                      Cryptarithmetic.printed_model eq_refl) eq_refl).
    reflexivity.
Defined.

(** ** The models of [mc_solver], and what cell 18 prints *)

Lemma mc_solver_models (m : model) :
  satisfies m MapColoring.mc_solver = true
  <-> Forall (fun x => 0 <= m x <= 2) MapColoring.regions
      /\ m "WA" <> m "NT" /\ m "WA" <> m "SA" /\ m "NT" <> m "SA"
      /\ m "NT" <> m "Q" /\ m "SA" <> m "Q" /\ m "SA" <> m "V"
      /\ m "SA" <> m "NSW" /\ m "Q" <> m "NSW" /\ m "NSW" <> m "V".
Proof.
  rewrite satisfies_Forall.
  change MapColoring.mc_solver
    with [Ge (Int "WA") (IntVal 0); Le (Int "WA") (IntVal 2);
          Ge (Int "SA") (IntVal 0); Le (Int "SA") (IntVal 2);
          Ge (Int "NT") (IntVal 0); Le (Int "NT") (IntVal 2);
          Ge (Int "Q") (IntVal 0); Le (Int "Q") (IntVal 2);
          Ge (Int "NSW") (IntVal 0); Le (Int "NSW") (IntVal 2);
          Ge (Int "V") (IntVal 0); Le (Int "V") (IntVal 2);
          Ge (Int "T") (IntVal 0); Le (Int "T") (IntVal 2);
          Ne (Int "WA") (Int "NT"); Ne (Int "WA") (Int "SA");
          Ne (Int "NT") (Int "WA"); Ne (Int "NT") (Int "SA");
          Ne (Int "NT") (Int "Q");
          Ne (Int "SA") (Int "WA"); Ne (Int "SA") (Int "NT");
          Ne (Int "SA") (Int "Q"); Ne (Int "SA") (Int "V");
          Ne (Int "SA") (Int "NSW");
          Ne (Int "Q") (Int "NT"); Ne (Int "Q") (Int "SA");
          Ne (Int "Q") (Int "NSW");
          Ne (Int "NSW") (Int "Q"); Ne (Int "NSW") (Int "SA");
          Ne (Int "NSW") (Int "V");
          Ne (Int "V") (Int "SA"); Ne (Int "V") (Int "NSW")].
  unfold MapColoring.regions.
  rewrite !Forall_cons_iff, !Forall_nil_iff.
  rewrite !holds_lower, !holds_upper, !holds_Ne_Int.
  intuition congruence.
Qed.

(** With three colors, two regions that both differ from two regions of
    different colors have the same color. *)
Lemma third_color (a b x y : Z) :
  0 <= a <= 2 -> 0 <= b <= 2 -> 0 <= x <= 2 -> 0 <= y <= 2 ->
  a <> b -> x <> a -> x <> b -> y <> a -> y <> b -> x = y.
Proof. lia. Qed.

(** X8. The models of [mc_solver] are the assignments that give South
    Australia, Western Australia and the Northern Territory the three colors
    0, 1, 2 in some order, Queensland and Victoria the color of Western
    Australia, New South Wales the color of the Northern Territory, and
    Tasmania any of the three. *)
Theorem mc_models_exactly (m : model) :
  satisfies m MapColoring.mc_solver = true
  <-> Forall (fun x => 0 <= m x <= 2) ["SA"; "WA"; "NT"; "T"]
      /\ m "SA" <> m "WA" /\ m "SA" <> m "NT" /\ m "WA" <> m "NT"
      /\ m "Q" = m "WA" /\ m "V" = m "WA" /\ m "NSW" = m "NT".
Proof.
  rewrite mc_solver_models. unfold MapColoring.regions.
  rewrite !Forall_cons_iff, !Forall_nil_iff. split.
  - intros ((HWA & HSA & HNT & HQ & HNSW & HV & HT & _) & H1 & H2 & H3 & H4
            & H5 & H6 & H7 & H8 & H9).
    assert (EQ : m "Q" = m "WA")
      by (apply (third_color (m "NT") (m "SA")); auto).
    assert (EN : m "NSW" = m "NT")
      by (apply (third_color (m "SA") (m "Q")); auto; congruence).
    assert (EV : m "V" = m "WA")
      by (apply (third_color (m "SA") (m "NSW")); auto; congruence).
    repeat split; auto; tauto.
  - intros ((HSA & HWA & HNT & HT & _) & H1 & H2 & H3 & EQ & EV & EN).
    rewrite EQ, EV, EN. repeat split; auto; try tauto; congruence.
Qed.

(** Reading a written integer gives it back, so different integers are
    written differently. *)
Lemma as_string_read (v : Z) :
  option_map Z.of_int (NilZero.int_of_string (as_string v)) = Some v.
Proof.
  unfold as_string. rewrite NilZero.isi.
  - cbn [option_map]. now rewrite DecimalZ.of_to.
  - destruct v; cbn; try discriminate.
    intros [= E]. now apply (Unsigned.to_uint_nonnil p).
  - destruct v; cbn; try discriminate.
    intros [= E]. now apply (Unsigned.to_uint_nonnil p).
Qed.

Lemma as_string_injective (v v' : Z) : as_string v = as_string v' -> v = v'.
Proof.
  intros E. pose proof (as_string_read v) as H.
  rewrite E, as_string_read in H. congruence.
Qed.

Lemma append_assoc (a b c : string) :
  ((a ++ b) ++ c = a ++ b ++ c)%string.
Proof.
  induction a as [|ch a IH]; cbn; [reflexivity | now rewrite IH].
Qed.

Lemma append_empty (a : string) : (a ++ EmptyString)%string = a.
Proof.
  induction a as [|ch a IH]; cbn; [reflexivity | now rewrite IH].
Qed.

Lemma length_append (a b : string) :
  String.length (a ++ b) = (String.length a + String.length b)%nat.
Proof.
  induction a as [|ch a IH]; cbn; [reflexivity | now rewrite IH].
Qed.

Lemma andthen_print (a : string) (p : run) :
  andthen (print a) p = ((a ++ newline ++ fst p)%string, snd p).
Proof.
  unfold andthen, print. cbn [fst snd]. now rewrite append_assoc.
Qed.

Lemma andthen_passed (p : run) : andthen (EmptyString, None) p = p.
Proof.
  now destruct p.
Qed.

Lemma lookup_colors (v : Z) :
  lookup MapColoringOutput.colors (as_string v)
  = if (0 <=? v) && (v <=? 2) then Some (color_of v) else None.
Proof.
  destruct ((0 <=? v) && (v <=? 2)) eqn:E.
  - apply andb_true_iff in E as [H0 H2]. apply Z.leb_le in H0, H2.
    assert (H : v = 0 \/ v = 1 \/ v = 2) by lia.
    destruct H as [-> | [-> | ->]]; reflexivity.
  - assert (H : v <> 0 /\ v <> 1 /\ v <> 2).
    { apply andb_false_iff in E as [E | E]; apply Z.leb_gt in E; lia. }
    destruct H as (H0 & H1 & H2).
    unfold lookup, MapColoringOutput.colors. cbn [find fst].
    change "0" with (as_string 0). change "1" with (as_string 1).
    change "2" with (as_string 2).
    replace (as_string 0 =? as_string v)%string with false
      by (symmetry; apply String.eqb_neq; intros E';
          apply as_string_injective in E'; congruence).
    replace (as_string 1 =? as_string v)%string with false
      by (symmetry; apply String.eqb_neq; intros E';
          apply as_string_injective in E'; congruence).
    replace (as_string 2 =? as_string v)%string with false
      by (symmetry; apply String.eqb_neq; intros E';
          apply as_string_injective in E'; congruence).
    reflexivity.
Qed.

(** X9. Cell 18 with the answer [sat]: on a model of [mc_solver] every
    lookup in [colors] finds its key, and the cell prints the seven regions
    with the names Blue, Red or Green of their colors; on an assignment that
    gives WA a value outside 0..2 the first lookup raises [KeyError] with
    that value as key and nothing is printed.  With another answer the
    assertion is uncaught. *)
Theorem cell18_prints_colors (check : oracle) (found : model) :
  (check MapColoring.mc_solver = sat ->
   satisfies found MapColoring.mc_solver = true ->
   MapColoringOutput.cell check found
   = (("WA=" ++ color_of (found "WA") ++ newline
       ++ "NT=" ++ color_of (found "NT") ++ newline
       ++ "SA=" ++ color_of (found "SA") ++ newline
       ++ "Q=" ++ color_of (found "Q") ++ newline
       ++ "NSW=" ++ color_of (found "NSW") ++ newline
       ++ "V=" ++ color_of (found "V") ++ newline
       ++ "T=" ++ color_of (found "T") ++ newline)%string,
      None))
  /\ (check MapColoring.mc_solver = sat ->
      ~ 0 <= found "WA" <= 2 ->
      MapColoringOutput.cell check found
      = (EmptyString, Some (KeyError (as_string (found "WA")))))
  /\ (check MapColoring.mc_solver <> sat ->
      MapColoringOutput.cell check found
      = (EmptyString,
         Some (Uncaught
                 (AssertionError
                    "Uh oh. The solver failed to find a solution. Check your constraints.")))).
Proof.
  unfold MapColoringOutput.cell, MapColoring.cell_check, eq_sat.
  unfold MapColoringOutput.print_color, MapColoring.WA, MapColoring.NT,
    MapColoring.SA, MapColoring.Q, MapColoring.NSW, MapColoring.V,
    MapColoring.T, getitem.
  rewrite !lookup_colors.
  split; [| split].
  - intros Hc H. rewrite Hc.
    apply mc_solver_models in H as (Hb & _). rewrite Forall_forall in Hb.
    assert (E : forall x, In x MapColoring.regions ->
                          (0 <=? found x) && (found x <=? 2) = true).
    { intros x Hx. specialize (Hb x Hx).
      apply andb_true_iff. split; apply Z.leb_le; lia. }
    rewrite !E by (cbn; tauto).
    change (asserting (assert (PyBool (CheckSatResult_eqb sat sat)) _))
      with ((EmptyString, None) : run).
    rewrite andthen_passed, !andthen_print. reflexivity.
  - intros Hc Hv. rewrite Hc.
    replace ((0 <=? found "WA") && (found "WA" <=? 2)) with false.
    + reflexivity.
    + symmetry. apply andb_false_iff.
      destruct (Z.leb_spec 0 (found "WA")); [right | now left].
      apply Z.leb_gt. lia.
  - intros Hc. destruct (check MapColoring.mc_solver);
      [contradiction | |]; reflexivity.
Qed.

Lemma cell18_prints_colors_witness :
  satisfies MapColoring.printed_model MapColoring.mc_solver = true
  /\ snd (MapColoringOutput.cell (fun _ => sat) MapColoring.printed_model)
     = None.
Proof.
  split.
  - reflexivity.
  - rewrite (proj1 (cell18_prints_colors (fun _ => sat)
                      MapColoring.printed_model) eq_refl eq_refl).
    reflexivity.
Defined.

(** ** The models of [s_solver] *)

Lemma boxes_named (box : ArithRef) :
  In box (List.concat Sudoku.boxes) ->
  exists r c, (r < 9)%nat /\ (c < 9)%nat /\ box = Int (Sudoku.name_at r c).
Proof.
  change (List.concat Sudoku.boxes) with (map Int (declared sudoku)).
  intros H. apply in_map_iff in H as (x & <- & Hx).
  apply in_flat_map in Hx as (r & Hr & Hx).
  apply in_map_iff in Hx as (c & <- & Hc).
  apply in_seq in Hr, Hc. exists r, c. repeat split; lia.
Qed.

Lemma block_cell (a b k : nat) :
  (a < 3)%nat -> (b < 3)%nat -> (k < 9)%nat ->
  (3 * a + k / 3 < 9 /\ 3 * b + k mod 3 < 9
   /\ (3 * a + k / 3) / 3 = a /\ (3 * b + k mod 3) / 3 = b
   /\ 3 * ((3 * a + k / 3) mod 3) + (3 * b + k mod 3) mod 3 = k)%nat.
Proof.
  intros Ha Hb Hk.
  destruct a as [|[|[|a]]]; [.. | exfalso; lia];
    (destruct b as [|[|[|b]]]; [.. | exfalso; lia]);
    below9 k; cbn; repeat split; lia.
Qed.

Lemma sudoku_models_iff (m : model) :
  satisfies m Sudoku.s_solver = true
  <-> (forall r c, (r < 9)%nat -> (c < 9)%nat -> 1 <= value_at m r c <= 9)
      /\ (forall r c1 c2, (r < 9)%nat -> (c1 < 9)%nat -> (c2 < 9)%nat ->
            c1 <> c2 -> value_at m r c1 <> value_at m r c2)
      /\ (forall c r1 r2, (c < 9)%nat -> (r1 < 9)%nat -> (r2 < 9)%nat ->
            r1 <> r2 -> value_at m r1 c <> value_at m r2 c)
      /\ (forall a b k1 k2,
            (a < 3)%nat -> (b < 3)%nat -> (k1 < 9)%nat -> (k2 < 9)%nat ->
            k1 <> k2 ->
            value_at m (3 * a + k1 / 3) (3 * b + k1 mod 3)
            <> value_at m (3 * a + k2 / 3) (3 * b + k2 mod 3))
      /\ (forall r c, (r < 9)%nat -> (c < 9)%nat ->
            Sudoku.board_at r c <> 0 ->
            value_at m r c = Sudoku.board_at r c).
Proof.
  split.
  - intros H. split; [| split; [| split; [| split]]].
    + intros r c Hr Hc.
      destruct (sudoku_bounds_asserted r c Hr Hc) as [Hlo Hhi]. split.
      * apply holds_lower. now apply (satisfies_In m _ _ H).
      * apply holds_upper. now apply (satisfies_In m _ _ H).
    + intros r c1 c2 Hr Hc1 Hc2 Hne.
      pose proof (satisfies_In m _ _ H (sudoku_row_asserted r Hr)) as Hd.
      apply holds_Distinct_seq in Hd.
      exact (NoDup_map_seq _ 9 c1 c2 Hd Hc1 Hc2 Hne).
    + intros c r1 r2 Hc Hr1 Hr2 Hne.
      pose proof (satisfies_In m _ _ H (sudoku_column_asserted c Hc)) as Hd.
      apply holds_Distinct_seq in Hd.
      exact (NoDup_map_seq _ 9 r1 r2 Hd Hr1 Hr2 Hne).
    + intros a b k1 k2 Ha Hb Hk1 Hk2 Hne.
      pose proof (satisfies_In m _ _ H (sudoku_block_asserted a b Ha Hb)) as Hd.
      apply holds_Distinct_seq in Hd.
      exact (NoDup_map_seq _ 9 k1 k2 Hd Hk1 Hk2 Hne).
    + intros r c Hr Hc Hnz.
      apply holds_Eq_IntVal. rewrite <- box_at_name by trivial.
      apply (satisfies_In m _ _ H). apply s_solver_assertions. do 4 right.
      apply hints_characterised. exists r, c. repeat split; trivial.
  - intros (Hb & Hrow & Hcol & Hblk & Hh).
    unfold satisfies. apply forallb_forall. intros k Hk.
    apply s_solver_assertions in Hk as [Hk | [Hk | [Hk | [Hk | Hk]]]].
    + apply in_flat_map in Hk as (box & Hbox & Hk).
      apply boxes_named in Hbox as (r & c & Hr & Hc & ->).
      destruct (Hb r c Hr Hc) as [Hlo Hhi].
      destruct Hk as [<- | [<- | []]].
      * now apply holds_lower.
      * now apply holds_upper.
    + apply in_map_iff in Hk as (row & <- & Hrow').
      apply (In_nth _ _ []) in Hrow' as (r & Hr & <-).
      change (List.length Sudoku.boxes) with 9%nat in Hr.
      replace (nth r Sudoku.boxes [])
        with (map Int (map (Sudoku.name_at r) (seq 0 9)))
        by (below9 r; reflexivity).
      apply holds_Distinct_Int. rewrite map_map.
      apply (NoDup_map_seq_intro (fun c => m (Sudoku.name_at r c))).
      intros i j Hi Hj Hij. now apply Hrow.
    + apply in_map_iff in Hk as (col & <- & Hcol').
      apply (In_nth _ _ []) in Hcol' as (c & Hc & <-).
      change (List.length (zip_star Sudoku.boxes)) with 9%nat in Hc.
      replace (nth c (zip_star Sudoku.boxes) [])
        with (map Int (map (fun r => Sudoku.name_at r c) (seq 0 9)))
        by (below9 c; reflexivity).
      apply holds_Distinct_Int. rewrite map_map.
      apply (NoDup_map_seq_intro (fun r => m (Sudoku.name_at r c))).
      intros i j Hi Hj Hij. now apply Hcol.
    + apply in_flat_map in Hk as (a & Ha & Hk).
      apply in_map_iff in Hk as (b & <- & Hb').
      assert (Ha' : exists a', (a' < 3)%nat /\ a = (3 * a')%nat).
      { cbn in Ha. destruct Ha as [<- | [<- | [<- | []]]];
          [exists 0%nat | exists 1%nat | exists 2%nat]; split; lia. }
      assert (Hb'' : exists b', (b' < 3)%nat /\ b = (3 * b')%nat).
      { cbn in Hb'. destruct Hb' as [<- | [<- | [<- | []]]];
          [exists 0%nat | exists 1%nat | exists 2%nat]; split; lia. }
      destruct Ha' as (a' & Ha' & ->). destruct Hb'' as (b' & Hb'' & ->).
      replace (Sudoku.block (3 * a') (3 * b'))
        with (map Int
                (map (fun k =>
                        Sudoku.name_at (3 * a' + k / 3) (3 * b' + k mod 3))
                     (seq 0 9))).
      * apply holds_Distinct_Int. rewrite map_map.
        apply (NoDup_map_seq_intro
                 (fun k => m (Sudoku.name_at (3 * a' + k / 3)
                                             (3 * b' + k mod 3)))).
        intros i j Hi Hj Hij. now apply Hblk.
      * destruct a' as [|[|[|a']]]; [.. | exfalso; lia];
          (destruct b' as [|[|[|b']]]; [.. | exfalso; lia]); reflexivity.
    + apply hints_characterised in Hk as (r & c & Hr & Hc & Hnz & ->).
      unfold Sudoku.hint. rewrite box_at_name by trivial.
      apply holds_Eq_IntVal. now apply Hh.
Qed.

(** X10. The models of [s_solver] are exactly the completed grids of the
    puzzle: values in 1..9 in the 81 boxes, no value twice in a row, in a
    column or in a 3x3 block, and each non-zero entry of the board in its
    box. *)
Theorem sudoku_models_exactly (m : model) :
  satisfies m Sudoku.s_solver = true
  <-> (forall r c, (r < 9)%nat -> (c < 9)%nat -> 1 <= value_at m r c <= 9)
      /\ (forall r c1 c2, (r < 9)%nat -> (c1 < 9)%nat -> (c2 < 9)%nat ->
            c1 <> c2 -> value_at m r c1 <> value_at m r c2)
      /\ (forall c r1 r2, (c < 9)%nat -> (r1 < 9)%nat -> (r2 < 9)%nat ->
            r1 <> r2 -> value_at m r1 c <> value_at m r2 c)
      /\ (forall r1 c1 r2 c2,
            (r1 < 9)%nat -> (c1 < 9)%nat -> (r2 < 9)%nat -> (c2 < 9)%nat ->
            (r1 / 3 = r2 / 3)%nat -> (c1 / 3 = c2 / 3)%nat ->
            r1 <> r2 \/ c1 <> c2 ->
            value_at m r1 c1 <> value_at m r2 c2)
      /\ (forall r c, (r < 9)%nat -> (c < 9)%nat ->
            Sudoku.board_at r c <> 0 ->
            value_at m r c = Sudoku.board_at r c).
Proof.
  rewrite sudoku_models_iff.
  split; intros (Hb & Hrow & Hcol & Hblk & Hh); repeat split; trivial;
    try apply Hb; trivial.
  - intros r1 c1 r2 c2 Hr1 Hc1 Hr2 Hc2 Hr Hc Hne.
    assert (Ha : (r1 / 3 < 3)%nat) by (apply Nat.Div0.div_lt_upper_bound; lia).
    assert (Hb' : (c1 / 3 < 3)%nat) by (apply Nat.Div0.div_lt_upper_bound; lia).
    pose proof (Nat.mod_upper_bound r1 3) as M1.
    pose proof (Nat.mod_upper_bound c1 3) as M2.
    pose proof (Nat.mod_upper_bound r2 3) as M3.
    pose proof (Nat.mod_upper_bound c2 3) as M4.
    pose proof (Nat.div_mod_eq r1 3) as E1.
    pose proof (Nat.div_mod_eq c1 3) as E2.
    pose proof (Nat.div_mod_eq r2 3) as E3.
    pose proof (Nat.div_mod_eq c2 3) as E4.
    assert (Hk : (3 * (r1 mod 3) + c1 mod 3 <> 3 * (r2 mod 3) + c2 mod 3)%nat)
      by lia.
    assert (B1 : (3 * (r1 mod 3) + c1 mod 3 < 9)%nat) by lia.
    assert (B2 : (3 * (r2 mod 3) + c2 mod 3 < 9)%nat) by lia.
    pose proof (Hblk _ _ _ _ Ha Hb' B1 B2 Hk) as Hv.
    destruct (block_position r1 c1) as [P1 P2].
    destruct (block_position r2 c2) as [P3 P4].
    rewrite P1, P2 in Hv. rewrite Hr, Hc, P3, P4 in Hv. exact Hv.
  - intros a b k1 k2 Ha Hb' Hk1 Hk2 Hne.
    destruct (block_cell a b k1 Ha Hb' Hk1) as (R1 & C1 & A1 & B1 & K1).
    destruct (block_cell a b k2 Ha Hb' Hk2) as (R2 & C2 & A2 & B2 & K2).
    apply Hblk; trivial; try congruence.
    destruct (Nat.eq_dec (3 * a + k1 / 3) (3 * a + k2 / 3)) as [Er | Er];
      [| now left].
    destruct (Nat.eq_dec (3 * b + k1 mod 3) (3 * b + k2 mod 3)) as [Ec | Ec];
      [| now right].
    exfalso. apply Hne. rewrite <- K1, <- K2, Er, Ec. reflexivity.
Qed.

(** X11. Each box belongs to the block of its row band and column band and
    to no other: of the nine blocks the loops over 0, 3, 6 build, the box
    of row [r], column [c] is in block [(a, b)] exactly when [a] is
    [3 * (r / 3)] and [b] is [3 * (c / 3)]; and a block has nine boxes. *)
Theorem blocks_partition (r c a b : nat) :
  (r < 9)%nat -> (c < 9)%nat ->
  In a [0; 3; 6]%nat -> In b [0; 3; 6]%nat ->
  List.length (Sudoku.block a b) = 9%nat
  /\ (In (Sudoku.box_at r c) (Sudoku.block a b)
      <-> a = (3 * (r / 3))%nat /\ b = (3 * (c / 3))%nat).
Proof.
  intros Hr Hc Ha Hb.
  assert (Ha' : exists a', (a' < 3)%nat /\ a = (3 * a')%nat).
  { cbn in Ha. destruct Ha as [<- | [<- | [<- | []]]];
      [exists 0%nat | exists 1%nat | exists 2%nat]; split; lia. }
  assert (Hb' : exists b', (b' < 3)%nat /\ b = (3 * b')%nat).
  { cbn in Hb. destruct Hb as [<- | [<- | [<- | []]]];
      [exists 0%nat | exists 1%nat | exists 2%nat]; split; lia. }
  clear Ha Hb.
  destruct Ha' as (a' & Ha & ->). destruct Hb' as (b' & Hb & ->).
  replace (Sudoku.block (3 * a') (3 * b'))
    with (map Int
            (map (fun k => Sudoku.name_at (3 * a' + k / 3) (3 * b' + k mod 3))
                 (seq 0 9)))
    by (destruct a' as [|[|[|a']]]; [.. | exfalso; lia];
        (destruct b' as [|[|[|b']]]; [.. | exfalso; lia]); reflexivity).
  split; [now rewrite !length_map, length_seq |].
  rewrite box_at_name by trivial. split.
  - intros H. apply in_map_iff in H as (x & Ex & Hx).
    apply in_map_iff in Hx as (k & <- & Hk). apply in_seq in Hk.
    apply Int_injective in Ex.
    destruct (block_cell a' b' k Ha Hb ltac:(lia)) as (R & C & A & B & _).
    apply name_at_injective in Ex as [<- <-]; trivial.
    rewrite A, B. split; reflexivity.
  - intros [Ea Eb].
    assert (Ea' : a' = (r / 3)%nat) by lia.
    assert (Eb' : b' = (c / 3)%nat) by lia.
    subst a' b'.
    destruct (block_position r c) as [P1 P2].
    apply in_map. apply in_map_iff.
    exists (3 * (r mod 3) + c mod 3)%nat. split.
    + now rewrite P1, P2.
    + apply in_seq.
      pose proof (Nat.mod_upper_bound r 3). pose proof (Nat.mod_upper_bound c 3).
      lia.
Qed.

Lemma blocks_partition_witness :
  (4 < 9)%nat /\ (7 < 9)%nat
  /\ In (Sudoku.box_at 4 7) (Sudoku.block 3 6).
Proof.
  split; [lia | split; [lia |]].
  apply (blocks_partition 4 7 3 6); cbn; try lia; tauto.
Defined.

(** ** What cell 31 prints *)

Lemma grid_text_get (ch : nat -> nat -> ascii) (r c : nat) :
  (r < 9)%nat -> (c < 9)%nat ->
  String.get (grid_offset r c) (grid_text ch) = Some (ch r c).
Proof.
  intros Hr Hc. below9 r; below9 c; reflexivity.
Qed.

Lemma cell31_text (found : model) :
  (forall x, existsb (String.eqb x) (declared sudoku) = true ->
             0 <= found x <= 9) ->
  for_each (fun rb => SudokuOutput.print_row found (fst rb) (snd rb))
           (enumerate Sudoku.boxes)
  = (grid_text (fun r c => digit_char (value_at found r c)), None).
Proof.
  intros Hb.
  remember (grid_text (fun r c => digit_char (value_at found r c))) as text
    eqn:Etext.
  cbv - [as_string].
  rewrite !as_string_digit by (apply Hb; reflexivity).
  subst text. reflexivity.
Qed.

Lemma existsb_In (x : string) (l : list string) :
  existsb (String.eqb x) l = true -> In x l.
Proof.
  intros H. apply existsb_exists in H as (y & Hy & E).
  apply String.eqb_eq in E. now subst y.
Qed.

(** X12. Cell 31 with the answer [sat], on a model of [s_solver]: the cell
    ends normally and prints 330 characters, eleven lines of 29 and their
    line breaks; the character at offset
    [30 * (r + r / 3) + 3 * c + c / 3 + 1] is the digit of the box of row
    [r], column [c], and the fourth and eighth lines are the rule.  With
    another answer nothing is printed and the assertion is uncaught. *)
Theorem cell31_prints_grid (check : oracle) (found : model) :
  satisfies found Sudoku.s_solver = true ->
  (check Sudoku.s_solver = sat ->
   snd (SudokuOutput.cell check found) = None
   /\ String.length (fst (SudokuOutput.cell check found)) = 330%nat
   /\ (forall r c, (r < 9)%nat -> (c < 9)%nat ->
         String.get (grid_offset r c) (fst (SudokuOutput.cell check found))
         = Some (digit_char (value_at found r c)))
   /\ (forall k, (k < 11)%nat ->
         String.get (30 * k + 29) (fst (SudokuOutput.cell check found))
         = Some (ascii_of_nat 10))
   /\ substring 90 29 (fst (SudokuOutput.cell check found))
      = SudokuOutput.rule
   /\ substring 210 29 (fst (SudokuOutput.cell check found))
      = SudokuOutput.rule)
  /\ (check Sudoku.s_solver <> sat ->
      SudokuOutput.cell check found
      = (EmptyString,
         Some (Uncaught
                 (AssertionError
                    "Uh oh. The solver didn't find a solution. Check your constraints.")))).
Proof.
  intros H. split.
  - intros Hc.
    assert (E : SudokuOutput.cell check found
                = (grid_text (fun r c => digit_char (value_at found r c)),
                   None)).
    { unfold SudokuOutput.cell, Sudoku.cell_check, eq_sat. rewrite Hc.
      change (asserting (assert (PyBool (CheckSatResult_eqb sat sat)) _))
        with ((EmptyString, None) : run).
      rewrite andthen_passed. apply cell31_text.
      intros x Hx. apply existsb_In in Hx.
      apply in_flat_map in Hx as (r & Hr & Hx).
      apply in_map_iff in Hx as (c & <- & Hcol).
      apply in_seq in Hr, Hcol.
      apply sudoku_models_iff in H as (Hb & _).
      specialize (Hb r c ltac:(lia) ltac:(lia)). unfold value_at in Hb. lia. }
    rewrite E. cbn [fst snd]. split; [reflexivity |].
    split; [reflexivity |]. split; [apply grid_text_get |].
    split; [| split; reflexivity].
    intros k Hk.
    do 11 (destruct k as [|k]; [reflexivity |]). exfalso. lia.
  - intros Hc. unfold SudokuOutput.cell, Sudoku.cell_check, eq_sat.
    destruct (check Sudoku.s_solver); [contradiction | |]; reflexivity.
Qed.

Lemma cell31_prints_grid_witness :
  satisfies Sudoku.printed_model Sudoku.s_solver = true
  /\ snd (SudokuOutput.cell (fun _ => sat) Sudoku.printed_model) = None.
Proof.
  split.
  - vm_compute. reflexivity.
  - apply (proj1 (cell31_prints_grid (fun _ => sat) Sudoku.printed_model
                    ltac:(vm_compute; reflexivity)) eq_refl).
Defined.

(** ** The hint loop on any board *)

Lemma fold_steps_none {A} (step : option Solver -> A -> option Solver)
      (l : list A) :
  (forall x, step None x = None) -> fold_left step l None = None.
Proof.
  intros Hn. induction l as [|x l IH]; cbn [fold_left]; trivial.
  now rewrite Hn.
Qed.

Lemma fold_steps_some {A} (step : option Solver -> A -> option Solver)
      (f : A -> list BoolRef) (l : list A) :
  (forall x s, In x l -> step (Some s) x = Some (s ++ f x)) ->
  forall s, fold_left step l (Some s) = Some (s ++ flat_map f l).
Proof.
  induction l as [|x l IH]; intros Hs s; cbn [fold_left flat_map].
  - now rewrite app_nil_r.
  - rewrite Hs by now left. rewrite IH by (intros; apply Hs; now right).
    now rewrite app_assoc.
Qed.

Lemma fold_steps_fail {A} (step : option Solver -> A -> option Solver)
      (l : list A) (x : A) :
  (forall y, step None y = None) ->
  In x l -> (forall s, step (Some s) x = None) ->
  forall acc, fold_left step l acc = None.
Proof.
  intros Hn Hx Hf. induction l as [|y l IH]; intros acc; [contradiction |].
  cbn [fold_left]. destruct Hx as [-> | Hx]; [| now apply IH].
  replace (step acc x) with (@None Solver)
    by (destruct acc; [now rewrite Hf | now rewrite Hn]).
  now apply fold_steps_none.
Qed.

(** What the loop adds for one cell of an indexable board. *)
Lemma hints_for_indexable (board : list (list Z)) (s : Solver) :
  SudokuBoards.indexable board ->
  SudokuBoards.hints_for board s
  = Some (s ++ flat_map
                 (fun row =>
                    flat_map
                      (fun column =>
                         if negb (SudokuBoards.entry board row column =? 0)
                         then [Eq (Sudoku.box_at row column)
                                  (IntVal (SudokuBoards.entry board row column))]
                         else [])
                      (seq 0 9))
                 (seq 0 9)).
Proof.
  intros [Hlen Hrows]. unfold SudokuBoards.hints_for.
  apply fold_steps_some. intros row s1 Hrow. apply in_seq in Hrow.
  apply fold_steps_some. intros column s2 Hcol. apply in_seq in Hcol.
  rewrite (nth_error_nth' board [] (n := row)) by lia.
  rewrite (nth_error_nth' (nth row board []) 0 (n := column))
    by (specialize (Hrows row); lia).
  fold (SudokuBoards.entry board row column).
  destruct (negb (SudokuBoards.entry board row column =? 0));
    [reflexivity | now rewrite app_nil_r].
Qed.

Lemma hints_for_index_error (board : list (list Z)) (s : Solver)
      (row column : nat) :
  (row < 9)%nat -> (column < 9)%nat ->
  ((List.length board <= row)%nat
   \/ (List.length (nth row board []) <= column)%nat) ->
  SudokuBoards.hints_for board s = None.
Proof.
  intros Hrow Hcol Hout. unfold SudokuBoards.hints_for.
  apply (fold_steps_fail _ _ row).
  - intros y. now apply fold_steps_none.
  - apply in_seq. lia.
  - intros s1. apply (fold_steps_fail _ _ column); trivial.
    + apply in_seq. lia.
    + intros s2. destruct (nth_error board row) as [board_row |] eqn:E;
        trivial.
      destruct Hout as [Hout | Hout].
      * apply nth_error_None in Hout. congruence.
      * rewrite (nth_error_nth _ _ [] E) in Hout.
        apply nth_error_None in Hout. now rewrite Hout.
Qed.

Lemma short_row_found (board : list (list Z)) (n : nat) :
  (forall row, (row < n)%nat -> (9 <= List.length (nth row board []))%nat)
  \/ exists row, (row < n)%nat /\ (List.length (nth row board []) < 9)%nat.
Proof.
  induction n as [|n [IH | (row & Hrow & Hshort)]].
  - left. intros row Hrow. lia.
  - destruct (Nat.le_gt_cases 9 (List.length (nth n board []))) as [Hn | Hn].
    + left. intros row Hrow.
      destruct (Nat.eq_dec row n) as [-> |]; [trivial | apply IH; lia].
    + right. exists n. split; [lia | trivial].
  - right. exists row. split; [lia | trivial].
Qed.

Lemma indexable_or_error (board : list (list Z)) (s : Solver) :
  SudokuBoards.indexable board \/ SudokuBoards.hints_for board s = None.
Proof.
  destruct (Nat.le_gt_cases 9 (List.length board)) as [Hlen | Hlen].
  - destruct (short_row_found board 9) as [Hrows | (row & Hrow & Hshort)].
    + left. now split.
    + right. apply (hints_for_index_error board s row
                      (List.length (nth row board []))); trivial.
      right. lia.
  - right. apply (hints_for_index_error board s (List.length board) 0); lia.
Qed.

(** X13. The hint loop on any board ends normally exactly when the board
    has at least nine rows whose first nine have at least nine entries, and
    otherwise with an index out of range; when it ends normally it has
    added, after the assertions already there, the equalities of the cells
    of the first nine rows and columns whose entry is not zero, and nothing
    else. *)
Theorem hints_for_any_board (board : list (list Z)) (s : Solver) :
  (SudokuBoards.indexable board ->
   exists hints,
     SudokuBoards.hints_for board s = Some (s ++ hints)
     /\ forall k,
          In k hints
          <-> exists row column,
                (row < 9)%nat /\ (column < 9)%nat
                /\ SudokuBoards.entry board row column <> 0
                /\ k = Eq (Sudoku.box_at row column)
                          (IntVal (SudokuBoards.entry board row column)))
  /\ (~ SudokuBoards.indexable board ->
      SudokuBoards.hints_for board s = None).
Proof.
  split.
  - intros Hi. eexists. split; [now apply hints_for_indexable |].
    intros k. rewrite in_flat_map. split.
    + intros (row & Hrow & Hk).
      apply in_flat_map in Hk as (column & Hcol & Hk).
      apply in_seq in Hrow, Hcol.
      destruct (Z.eqb_spec (SudokuBoards.entry board row column) 0);
        cbn [negb] in Hk; [contradiction |].
      destruct Hk as [<- | []]. exists row, column. repeat split; trivial; lia.
    + intros (row & column & Hrow & Hcol & Hnz & ->).
      exists row. split; [apply in_seq; lia |].
      apply in_flat_map. exists column. split; [apply in_seq; lia |].
      destruct (Z.eqb_spec (SudokuBoards.entry board row column) 0);
        [contradiction | now left].
  - intros Hni. destruct (indexable_or_error board s); tauto.
Qed.

Lemma hints_for_any_board_witness :
  SudokuBoards.indexable Sudoku.board
  /\ ~ SudokuBoards.indexable (firstn 8 Sudoku.board)
  /\ SudokuBoards.hints_for (firstn 8 Sudoku.board) new_solver = None.
Proof.
  assert (Hi : SudokuBoards.indexable Sudoku.board).
  { split; [cbn; lia |]. intros row Hrow. below9 row; cbn; lia. }
  assert (Hn : ~ SudokuBoards.indexable (firstn 8 Sudoku.board)).
  { intros [Hlen _]. cbn in Hlen. lia. }
  split; [exact Hi | split; [exact Hn |]].
  apply (proj2 (hints_for_any_board (firstn 8 Sudoku.board) new_solver) Hn).
Defined.

Lemma general_bounds_asserted (r c : nat) :
  (r < 9)%nat -> (c < 9)%nat ->
  In (Ge (Int (Sudoku.name_at r c)) (IntVal 1))
     (Sudoku.cell_general new_solver)
  /\ In (Le (Int (Sudoku.name_at r c)) (IntVal 9))
       (Sudoku.cell_general new_solver).
Proof.
  intros Hr Hc. rewrite cell_general_appends.
  assert (Hb : In (Int (Sudoku.name_at r c)) (List.concat Sudoku.boxes)).
  { change (List.concat Sudoku.boxes) with (map Int (declared sudoku)).
    apply in_map. apply in_flat_map. exists r. split; [apply in_seq; lia |].
    apply in_map. apply in_seq. lia. }
  destruct (bounds_In 1 9 _ _ Hb).
  split; do 3 (apply in_or_app; left); apply in_or_app; now right.
Qed.

Lemma general_row_asserted (r : nat) :
  (r < 9)%nat ->
  In (Distinct (map Int (map (Sudoku.name_at r) (seq 0 9))))
     (Sudoku.cell_general new_solver).
Proof.
  intros Hr. rewrite cell_general_appends.
  do 2 (apply in_or_app; left). apply in_or_app. right. apply in_map.
  replace (map Int (map (Sudoku.name_at r) (seq 0 9)))
    with (nth r Sudoku.boxes []) by (below9 r; reflexivity).
  apply nth_In. exact Hr.
Qed.

Lemma solver_for_parts (board : list (list Z)) (s : Solver) (m : model) :
  SudokuBoards.solver_for board = Some s ->
  satisfies m s = true ->
  satisfies m (Sudoku.cell_general new_solver) = true
  /\ forall r c, (r < 9)%nat -> (c < 9)%nat ->
       SudokuBoards.entry board r c <> 0 ->
       value_at m r c = SudokuBoards.entry board r c.
Proof.
  unfold SudokuBoards.solver_for. intros Hs Hm.
  destruct (indexable_or_error board (Sudoku.cell_general new_solver))
    as [Hi | Hn]; [| congruence].
  rewrite (hints_for_indexable _ _ Hi) in Hs.
  apply (f_equal (fun o => match o with Some x => x | None => s end)) in Hs.
  rewrite <- Hs in Hm. unfold satisfies in Hm. rewrite forallb_app in Hm.
  apply andb_true_iff in Hm as [Hg Hh]. split; [exact Hg |].
  intros r c Hr Hc Hnz. rewrite forallb_forall in Hh.
  apply holds_Eq_IntVal. rewrite <- box_at_name by trivial. apply Hh.
  apply in_flat_map. exists r. split; [apply in_seq; lia |].
  apply in_flat_map. exists c. split; [apply in_seq; lia |].
  destruct (Z.eqb_spec (SudokuBoards.entry board r c) 0);
    [contradiction | now left].
Qed.

Lemma solver_for_board_in_force :
  SudokuBoards.solver_for Sudoku.board = Some Sudoku.s_solver.
Proof. reflexivity. Qed.



(** ** The diagonal constraints come in pairs *)

Lemma diagonal_symmetric (m : model) (i j : nat) (x y : string) :
  holds m (NQueens.diagonal i (Int x) j (Int y))
  = holds m (NQueens.diagonal j (Int y) i (Int x)).
Proof.
  apply eq_true_iff_eq. rewrite !holds_diagonal.
  replace (m y - m x) with (- (m x - m y)) by lia.
  replace (Z.of_nat j - Z.of_nat i) with (- (Z.of_nat i - Z.of_nat j)) by lia.
  rewrite !Z.abs_opp. reflexivity.
Qed.

Lemma queen_name_injective (i j : nat) :
  NQueens.queen_name i = NQueens.queen_name j -> i = j.
Proof.
  unfold NQueens.queen_name, format_nat. cbn [String.append].
  intros E. injection E as E.
  apply (f_equal NilEmpty.uint_of_string) in E.
  rewrite !NilEmpty.usu in E. injection E as E.
  apply (f_equal Nat.of_uint) in E.
  now rewrite !DecimalNat.Unsigned.of_to in E.
Qed.

(** X15. The double loop of [nqueens] adds every diagonal constraint twice:
    for two different queens [i] and [j] of [nqueens N], the solver holds
    the assertion built for [(i, j)] and the one built for [(j, i)], they
    are two different assertions, and they have the same truth value in
    every model. *)
Theorem diagonal_added_twice (N i j : nat) :
  (i < N)%nat -> (j < N)%nat -> i <> j ->
  In (NQueens.diagonal i (Int (NQueens.queen_name i))
                       j (Int (NQueens.queen_name j)))
     (NQueens.nqueens N)
  /\ In (NQueens.diagonal j (Int (NQueens.queen_name j))
                          i (Int (NQueens.queen_name i)))
       (NQueens.nqueens N)
  /\ NQueens.diagonal i (Int (NQueens.queen_name i))
                       j (Int (NQueens.queen_name j))
     <> NQueens.diagonal j (Int (NQueens.queen_name j))
                         i (Int (NQueens.queen_name i))
  /\ forall m,
       holds m (NQueens.diagonal i (Int (NQueens.queen_name i))
                                 j (Int (NQueens.queen_name j)))
       = holds m (NQueens.diagonal j (Int (NQueens.queen_name j))
                                   i (Int (NQueens.queen_name i))).
Proof.
  intros Hi Hj Hij. split; [| split; [| split]].
  - now apply diagonal_In.
  - apply diagonal_In; trivial. congruence.
  - intros E. apply (f_equal consts_of) in E.
    unfold NQueens.diagonal, NQueens.Abs in E.
    cbn [consts_of consts app] in E.
    apply (f_equal (hd EmptyString)) in E. cbn [hd] in E.
    apply Hij. now apply queen_name_injective.
  - intros m. apply diagonal_symmetric.
Qed.

Lemma diagonal_added_twice_witness :
  (0 < 8)%nat /\ (1 < 8)%nat /\ 0%nat <> 1%nat
  /\ In (NQueens.diagonal 1 (Int "Q1") 0 (Int "Q0")) (NQueens.nqueens 8).
Proof.
  split; [lia | split; [lia | split; [lia |]]].
  apply (diagonal_added_twice 8 0 1); lia.
Defined.
